(** * FID sweep and report: a shallow embedding of [calculate_fid_excel.py]

    The script walks a grid of sampling configurations (steps x eta),
    asks an external engine for one FID score per grid point, collects the
    scores in a pandas [DataFrame] and writes three reports (workbook, CSV,
    text).

    Modelling choices.
    - A score is a rational number ([Q]); a cell of a pandas float column is
      [option Q], [None] standing for Python's [None] / pandas' [NaN].
      Sums and means are exact there; the two ways the script takes a mean
      are also given on binary64 numbers, where rounding tells them
      apart.
    - The file system, the user at the prompt and the FID engine are oracles
      collected in a [World].
    - [main] is a computation in a writer-and-exception monad: its result is
      the trace of observable events (console lines, engine calls, files
      written) together with the way the run ended.
    - The pandas operations the script calls ([pivot], [sort_index], [min],
      [max], [mean], [std], [idxmin], [idxmax], [groupby(..).mean()], boolean
      indexing) are modelled from their documented behaviour on a column
      that holds numbers and NaN. *)

From Stdlib Require Import List ZArith QArith Qround String Ascii Bool Arith Lia Lqa.
From Stdlib Require Import Sorting.Sorted SetoidList SetoidPermutation Permutation Morphisms RelationClasses.
From Stdlib Require Import Decimal DecimalString.
From Stdlib Require Import Floats.PrimFloat.
Import ListNotations.

Local Open Scope string_scope.
Local Open Scope list_scope.
Local Open Scope Z_scope.

(** ** Configuration (module level constants of the script) *)

Record Config := {
  reference_path : string;
  samples_base_path : string;
  steps_list : list Z;
  eta_list : list Q
}.

(** The values the script is shipped with. *)
Definition default_config : Config := {|
  reference_path := "./data/afhq/eval";
  samples_base_path := "./samples";
  steps_list := [10; 20; 50; 100; 1000];
  eta_list := [0; 1 # 5; 1 # 2; 1]%Q
|}.

(** [eta_to_folder]: a dict keyed by numbers; Python compares keys with
    [==], so [0], [0.0] and any other spelling of the same number hit the
    same entry. *)
Definition eta_to_folder : list (Q * string) :=
  [ (0%Q, "eta_0"); ((1 # 5)%Q, "eta_02"); ((1 # 2)%Q, "eta_05"); (1%Q, "eta_1") ].

Fixpoint dict_get (d : list (Q * string)) (k : Q) : option string :=
  match d with
  | [] => None
  | (k', v) :: d' => if Qeq_bool k' k then Some v else dict_get d' k
  end.

(** ** Data *)

(** A cell of the [fid] column. *)
Definition cell := option Q.

(** One element of [results]: the dict [{'steps':.., 'eta':.., 'fid':..}]. *)
Record Row := { steps : Z; eta : Q; fid : cell }.

(** A [DataFrame] built from [results]: one row per dict, RangeIndex. *)
Definition DataFrame := list Row.

(** The pivoted frame: column labels and, per row label, the cells. *)
Record PivotTable := {
  columns : list Q;
  rows : list (Z * list cell)
}.

(** Square root is not rational: a standard deviation is kept as the
    radicand of its root. *)
Inductive stdval :=
| StdNaN
| StdSqrt (variance : Q).

Record Summary := {
  best_fid : cell;    (* df['fid'].min()  *)
  worst_fid : cell;   (* df['fid'].max()  *)
  mean_fid : cell;    (* df['fid'].mean() *)
  std_fid : stdval    (* df['fid'].std()  *)
}.

Record Workbook := {
  FID_Table : PivotTable;
  Raw_Data : DataFrame;
  Summary_sheet : Summary;
  Avg_by_Eta : list (Q * cell);
  Avg_by_Steps : list (Z * cell)
}.

(** What is written to [fid_results.txt], piece by piece. *)
Inductive txt_item :=
| TTableTitle
| TPivot (p : PivotTable)
| TSummaryTitle
| TBest (s : Z) (e : Q) (f : cell)
| TWorst (s : Z) (e : Q) (f : cell)
| TAvgEtaTitle
| TAvgEta (e : Q) (avg : cell)
| TAvgStepsTitle
| TAvgSteps (s : Z) (avg : cell).

(** ** Exceptions, events, the monad *)

Inductive exn :=
| KeyError_eta (e : Q)          (* eta_to_folder[eta] *)
| KeyError_column               (* a frame without columns has no 'steps' *)
| ValueError_duplicates         (* pivot: index contains duplicate entries *)
| Error_all_NaN.                (* idxmin / idxmax / loc on a column of NaN *)

(** Console output, one constructor per group of [print] calls. *)
Inductive line :=
| LBanner (ref samples : string) (ss : list Z) (es : list Q)
| LSamplesNotFound (p : string)
| LReferenceNotFound (p : string)
| LProgress (current total : nat) (s : Z) (e : Q) (folder : string)
| LFolderNotFound
| LScore (v : Q)
| LError (msg : string)
| LAllDone
| LTable (p : PivotTable)
| LSaved (file : string)
| LSummaryTitle
| LBest (s : Z) (e : Q) (f : cell)
| LWorst (s : Z) (e : Q) (f : cell)
| LOverall (mean : cell) (std : stdval).

Inductive event :=
| Print (l : line)
| Prompt (question : string)
| FidCall (paths : list string) (img_size batch_size : Z)
| ExcelSaved (file : string) (wb : Workbook)
| CsvSaved (file : string) (p : PivotTable)
| TxtWritten (file : string) (items : list txt_item).

Inductive res (A : Type) :=
| Done (a : A)
| Raise (e : exn).
Arguments Done {A} a.
Arguments Raise {A} e.

(** A computation: the events it produced, and its result. *)
Definition M (A : Type) : Type := (list event * res A)%type.

Definition ret {A} (a : A) : M A := ([], Done a).
Definition raise {A} (e : exn) : M A := ([], Raise e).
Definition emit (ev : event) : M unit := ([ev], Done tt).
Definition print (l : line) : M unit := emit (Print l).

Definition bind {A B} (m : M A) (f : A -> M B) : M B :=
  match m with
  | (t, Done a) => let (t', r) := f a in (t ++ t', r)
  | (t, Raise e) => (t, Raise e)
  end.

Notation "x <- m ;; k" := (bind m (fun x => k))
  (at level 61, m at next level, right associativity).
Notation "m ;;; k" := (bind m (fun _ => k))
  (at level 61, right associativity).

(** [for x in xs: s = body x s] *)
Fixpoint for_each {A S : Type} (xs : list A) (body : A -> S -> M S) (s : S) : M S :=
  match xs with
  | [] => ret s
  | x :: xs' => s' <- body x s ;; for_each xs' body s'
  end.

(** ** The world *)

Inductive engine_result :=
| Returned (v : Q)
| Raised (msg : string).

Record World := {
  path_exists : string -> bool;                                  (* os.path.exists *)
  user_input : string;                                           (* input(..) *)
  calculate_fid_given_paths : list string -> Z -> Z -> engine_result
}.

(** ** Strings and paths *)

(** [str(n)] for an int. *)
Definition str_int (n : Z) : string := NilZero.string_of_int (Z.to_int n).

Definition ends_with_slash (s : string) : bool :=
  match get (String.length s - 1) s with
  | Some c => Ascii.eqb c "/"%char
  | None => false
  end.

(** [os.path.join a b] on POSIX. *)
Definition path_join (a b : string) : string :=
  match get 0 b with
  | Some "/"%char => b
  | _ => if (String.eqb a "" || ends_with_slash a)%bool then (a ++ b)%string else (a ++ "/" ++ b)%string
  end.

(** [user_input.lower() != 'y'] is false exactly for "y" and "Y". *)
Definition answered_yes (s : string) : bool := (String.eqb s "y" || String.eqb s "Y")%bool.

(** ** The sweep (lines 49-92) *)

Definition folder_name_of (s : Z) (token : string) : string :=
  ("steps_" ++ str_int s ++ "_" ++ token)%string.

Definition mkRow (s : Z) (e : Q) (f : cell) : Row := {| steps := s; eta := e; fid := f |}.

(** Loop state: [current] and [results]. *)
Definition sweep_state := (nat * list Row)%type.

(** The body of the inner loop. *)
Definition process_point (cfg : Config) (w : World) (total : nat)
    (s : Z) (e : Q) (st : sweep_state) : M sweep_state :=
  let current := S (fst st) in
  let results := snd st in
  token <- match dict_get eta_to_folder e with
           | Some t => ret t
           | None => raise (KeyError_eta e)
           end ;;
  let folder_name := folder_name_of s token in
  let sample_path := path_join (samples_base_path cfg) folder_name in
  print (LProgress current total s e folder_name) ;;;
  if negb (path_exists w sample_path) then
    print LFolderNotFound ;;;
    ret (current, results ++ [mkRow s e None])
  else
    emit (FidCall [reference_path cfg; sample_path] 256 64) ;;;
    match calculate_fid_given_paths w [reference_path cfg; sample_path] 256 64 with
    | Returned fid_value =>
        print (LScore fid_value) ;;;
        ret (current, results ++ [mkRow s e (Some fid_value)])
    | Raised msg =>
        print (LError msg) ;;;
        ret (current, results ++ [mkRow s e None])
    end.

Definition sweep (cfg : Config) (w : World) : M (list Row) :=
  let total_configs := (List.length (steps_list cfg) * List.length (eta_list cfg))%nat in
  st <- for_each (steps_list cfg)
          (fun s => for_each (eta_list cfg) (process_point cfg w total_configs s))
          (0%nat, []) ;;
  ret (snd st).

(** ** pandas: labels *)

Section SortedLabels.
Context {A : Type} (cmp : A -> A -> comparison).

(** Insert a label into an ascending list of distinct labels. *)
Fixpoint insert_uniq (x : A) (l : list A) : list A :=
  match l with
  | [] => [x]
  | y :: t =>
      match cmp x y with
      | Lt => x :: l
      | Eq => l
      | Gt => y :: insert_uniq x t
      end
  end.

(** The distinct values of a column, ascending: the labels pandas gives
    to the axes of a pivoted frame and to the groups of a [groupby]. *)
Definition sort_uniq (l : list A) : list A := fold_right insert_uniq [] l.
End SortedLabels.

(** ** pandas: reductions of a column, NaN skipped *)

Definition notna (c : cell) : bool :=
  match c with Some _ => true | None => false end.

Definition Qlt_bool (a b : Q) : bool := negb (Qle_bool b a).

Definition nan_min (a b : cell) : cell :=
  match a, b with
  | None, _ => b
  | _, None => a
  | Some p, Some q => Some (if Qle_bool p q then p else q)
  end.

Definition nan_max (a b : cell) : cell :=
  match a, b with
  | None, _ => b
  | _, None => a
  | Some p, Some q => Some (if Qle_bool q p then p else q)
  end.

(** [Series.min()], [Series.max()]: NaN when nothing is left. *)
Definition series_min (col : list cell) : cell := fold_left nan_min col None.
Definition series_max (col : list cell) : cell := fold_left nan_max col None.

(** [Series.count()]: how many cells are not NaN. *)
Definition series_count (col : list cell) : nat := List.length (filter notna col).

Definition add_cell (acc : Q) (c : cell) : Q :=
  match c with Some v => (acc + v)%Q | None => acc end.

(** [Series.sum()]. *)
Definition series_sum (col : list cell) : Q := fold_left add_cell col 0%Q.

Definition Qnat (n : nat) : Q := inject_Z (Z.of_nat n).

(** [Series.mean()]. *)
Definition series_mean (col : list cell) : cell :=
  let n := series_count col in
  if (n =? 0)%nat then None else Some (series_sum col / Qnat n)%Q.

Definition add_sqdev (avg : Q) (acc : Q) (c : cell) : Q :=
  match c with Some v => (acc + (avg - v) * (avg - v))%Q | None => acc end.

(** [Series.var(ddof)]: squared deviations from the mean over
    [count - ddof], NaN unless [count > ddof]. *)
Definition series_var (ddof : nat) (col : list cell) : cell :=
  let n := series_count col in
  if (n <=? ddof)%nat then None
  else
    let avg := (series_sum col / Qnat n)%Q in
    Some (fold_left (add_sqdev avg) col 0%Q / Qnat (n - ddof))%Q.

(** [Series.std()]; pandas' default is [ddof=1]. *)
Definition series_std (col : list cell) : stdval :=
  match series_var 1 col with
  | None => StdNaN
  | Some v => StdSqrt v
  end.

(** Scan for the position of the extreme value; a later cell replaces the
    current one only when it is strictly [better], so the first of several
    equal extremes stays. *)
Fixpoint arg_best (better : Q -> Q -> bool) (col : list cell) (i : nat)
    (best : option (nat * Q)) : option (nat * Q) :=
  match col with
  | [] => best
  | None :: t => arg_best better t (S i) best
  | Some v :: t =>
      match best with
      | None => arg_best better t (S i) (Some (i, v))
      | Some (_, b) =>
          if better v b then arg_best better t (S i) (Some (i, v))
          else arg_best better t (S i) best
      end
  end.

(** [Series.idxmin()], [Series.idxmax()] on a RangeIndex: the label is the
    position; [None] is the NaN label of a column without numbers.  (Recent
    pandas raises in [idxmin] itself instead of returning NaN; either way
    the statement [best = df.loc[best_idx]] does not complete.) *)
Definition idxmin (col : list cell) : option nat :=
  option_map fst (arg_best Qlt_bool col 0%nat None).
Definition idxmax (col : list cell) : option nat :=
  option_map fst (arg_best (fun v b => Qlt_bool b v) col 0%nat None).

(** [df.loc[label]]. *)
Definition loc (df : DataFrame) (label : option nat) : res Row :=
  match label with
  | None => Raise Error_all_NaN
  | Some i =>
      match nth_error df i with
      | Some r => Done r
      | None => Raise Error_all_NaN
      end
  end.

(** ** pandas: pivot, sort_index, groupby, boolean indexing *)

Definition same_point (a b : Row) : bool :=
  ((steps a =? steps b) && Qeq_bool (eta a) (eta b))%bool.

Fixpoint has_duplicates (df : DataFrame) : bool :=
  match df with
  | [] => false
  | r :: t => (existsb (same_point r) t || has_duplicates t)%bool
  end.

Definition at_point (s : Z) (e : Q) (r : Row) : bool :=
  ((steps r =? s) && Qeq_bool (eta r) e)%bool.

(** The cell of the pivoted frame at row [s], column [e]. *)
Definition cell_at (df : DataFrame) (s : Z) (e : Q) : cell :=
  match find (at_point s e) df with
  | Some r => fid r
  | None => None
  end.

(** [df.pivot(index='steps', columns='eta', values='fid')]. *)
Definition pivot (df : DataFrame) : res PivotTable :=
  match df with
  | [] => Raise KeyError_column
  | _ =>
      if has_duplicates df then Raise ValueError_duplicates
      else
        let cols := sort_uniq Qcompare (map eta df) in
        Done {| columns := cols;
                rows := map (fun s => (s, map (cell_at df s) cols))
                            (sort_uniq Z.compare (map steps df)) |}
  end.

Fixpoint insert_row (r : Z * list cell) (l : list (Z * list cell)) : list (Z * list cell) :=
  match l with
  | [] => [r]
  | r' :: t => if fst r <=? fst r' then r :: l else r' :: insert_row r t
  end.

(** [pivot_table.sort_index()]: rows by ascending label, stable. *)
Definition sort_index (p : PivotTable) : PivotTable :=
  {| columns := columns p; rows := fold_right insert_row [] (rows p) |}.

Definition eta_is (e : Q) (r : Row) : bool := Qeq_bool (eta r) e.
Definition steps_is (s : Z) (r : Row) : bool := steps r =? s.

(** [df[df['eta'] == e]['fid'].mean()] and its [steps] twin. *)
Definition mask_eta_mean (df : DataFrame) (e : Q) : cell :=
  series_mean (map fid (filter (eta_is e) df)).
Definition mask_steps_mean (df : DataFrame) (s : Z) : cell :=
  series_mean (map fid (filter (steps_is s) df)).

(** [groupby(..).mean()] does not call [Series.mean()]: it has a loop of
    its own, which adds the numbers of a group with a compensated (Kahan)
    summation.  One step of it, on the running sum and the compensation
    carried to the next step: *)
Definition kahan_step (st : Q * Q) (c : cell) : Q * Q :=
  match c with
  | None => st
  | Some v =>
      let y := (v - snd st)%Q in
      let t := (fst st + y)%Q in
      (t, (t - fst st - y)%Q)
  end.

Definition group_sum (col : list cell) : Q := fst (fold_left kahan_step col (0%Q, 0%Q)).

(** The mean [groupby] gives for the cells of one group. *)
Definition group_mean (col : list cell) : cell :=
  let n := series_count col in
  if (n =? 0)%nat then None else Some (group_sum col / Qnat n)%Q.

(** [df.groupby('eta')['fid'].mean().reset_index()]: one line per distinct
    key, keys ascending ([sort=True] is the default of [groupby]). *)
Definition groupby_eta_mean (df : DataFrame) : list (Q * cell) :=
  map (fun k => (k, group_mean (map fid (filter (eta_is k) df))))
      (sort_uniq Qcompare (map eta df)).
Definition groupby_steps_mean (df : DataFrame) : list (Z * cell) :=
  map (fun k => (k, group_mean (map fid (filter (steps_is k) df))))
      (sort_uniq Z.compare (map steps df)).

(** ** The two means on doubles

    The model above computes with exact rationals.  The two ways the script
    takes a mean are repeated here on IEEE binary64 numbers, operation for
    operation, to show where rounding tells them apart: [series_mean64] is
    [series_mean] ([Series.mean()]: the numbers added from left to right),
    [group_mean64] is [group_mean] ([groupby(..).mean()]: compensated
    summation, the compensation reset when it is NaN). *)

Definition cell64 := option float.

Definition notna64 (c : cell64) : bool :=
  match c with Some _ => true | None => false end.

Definition series_count64 (col : list cell64) : nat := List.length (filter notna64 col).

(** A count as a double (exact below 2^53). *)
Fixpoint float_of_nat (n : nat) : float :=
  match n with
  | O => 0%float
  | S k => (float_of_nat k + 1)%float
  end.

Definition add_cell64 (acc : float) (c : cell64) : float :=
  match c with Some v => (acc + v)%float | None => acc end.

Definition series_sum64 (col : list cell64) : float := fold_left add_cell64 col 0%float.

Definition series_mean64 (col : list cell64) : cell64 :=
  let n := series_count64 col in
  if (n =? 0)%nat then None else Some (series_sum64 col / float_of_nat n)%float.

Definition kahan_step64 (st : float * float) (c : cell64) : float * float :=
  match c with
  | None => st
  | Some v =>
      let y := (v - snd st)%float in
      let t := (fst st + y)%float in
      let comp := (t - fst st - y)%float in
      (t, if PrimFloat.eqb comp comp then comp else 0%float)
  end.

Definition group_sum64 (col : list cell64) : float :=
  fst (fold_left kahan_step64 col (0%float, 0%float)).

Definition group_mean64 (col : list cell64) : cell64 :=
  let n := series_count64 col in
  if (n =? 0)%nat then None else Some (group_sum64 col / float_of_nat n)%float.

(** The scores of the five rows of one eta value in a sweep over five steps
    values: the doubles nearest to 216.1, 230.7, 198.4, 250.9, 184.6. *)
Definition five_scores64 : list cell64 :=
  [Some 0x1.b033333333333p+7%float; Some 0x1.cd66666666666p+7%float;
   Some 0x1.8cccccccccccdp+7%float; Some 0x1.f5ccccccccccdp+7%float;
   Some 0x1.7133333333333p+7%float].

(** ** The reports (lines 98-197) *)

Definition summary_of (df : DataFrame) : Summary :=
  let col := map fid df in
  {| best_fid := series_min col;
     worst_fid := series_max col;
     mean_fid := series_mean col;
     std_fid := series_std col |}.

(** The sheets of [fid_results.xlsx] (lines 114-141). *)
Definition build_workbook (df : DataFrame) (pivot_table : PivotTable) : Workbook :=
  {| FID_Table := pivot_table;
     Raw_Data := df;
     Summary_sheet := summary_of df;
     Avg_by_Eta := groupby_eta_mean df;
     Avg_by_Steps := groupby_steps_mean df |}.

(** The body of [with open(output_txt, 'w') as f] (lines 152-181): what
    reached the file, and the exception that ended the block, if any. *)
Definition text_report (cfg : Config) (df : DataFrame) (pivot_table : PivotTable)
    : list txt_item * option exn :=
  let head := [TTableTitle; TPivot pivot_table; TSummaryTitle] in
  match loc df (idxmin (map fid df)) with
  | Raise e => (head, Some e)
  | Done best =>
      match loc df (idxmax (map fid df)) with
      | Raise e => (head, Some e)
      | Done worst =>
          (head
           ++ [TBest (steps best) (eta best) (fid best);
               TWorst (steps worst) (eta worst) (fid worst)]
           ++ TAvgEtaTitle :: map (fun e => TAvgEta e (mask_eta_mean df e)) (eta_list cfg)
           ++ TAvgStepsTitle :: map (fun s => TAvgSteps s (mask_steps_mean df s)) (steps_list cfg),
           None)
      end
  end.

Definition lift {A} (r : res A) : M A := ([], r).

Definition output_excel := "fid_results.xlsx".
Definition output_csv := "fid_results.csv".
Definition output_txt := "fid_results.txt".

(** Lines 98-197.  The statements inside [with pd.ExcelWriter(..)] and the
    write of the CSV file raise nothing on a column of numbers and NaN; the
    lookup of the best and worst row does, when the column has no number.
    (When every [fid] is [None] pandas keeps the column as objects, and a
    version of pandas may already refuse an earlier reduction of it; the
    model places the exception at the lookup of the best row, the last
    statement that can raise it.) *)
Definition report (cfg : Config) (results : list Row) : M unit :=
  let df : DataFrame := results in
  p <- lift (pivot df) ;;
  let pivot_table := sort_index p in
  print (LTable pivot_table) ;;;
  emit (ExcelSaved output_excel (build_workbook df pivot_table)) ;;;
  print (LSaved output_excel) ;;;
  emit (CsvSaved output_csv pivot_table) ;;;
  print (LSaved output_csv) ;;;
  let (items, err) := text_report cfg df pivot_table in
  emit (TxtWritten output_txt items) ;;;
  match err with
  | Some e => raise e
  | None =>
      print (LSaved output_txt) ;;;
      print LSummaryTitle ;;;
      best <- lift (loc df (idxmin (map fid df))) ;;
      print (LBest (steps best) (eta best) (fid best)) ;;;
      worst <- lift (loc df (idxmax (map fid df))) ;;
      print (LWorst (steps worst) (eta worst) (fid worst)) ;;;
      print (LOverall (series_mean (map fid df)) (series_std (map fid df)))
  end.

(** ** main *)

(** Lines 42-47: [true] when the run goes on. *)
Definition check_reference (cfg : Config) (w : World) : M bool :=
  if negb (path_exists w (reference_path cfg)) then
    print (LReferenceNotFound (reference_path cfg)) ;;;
    emit (Prompt "Continue anyway? (y/n): ") ;;;
    ret (answered_yes (user_input w))
  else ret true.

Definition main (cfg : Config) (w : World) : M unit :=
  print (LBanner (reference_path cfg) (samples_base_path cfg)
                 (steps_list cfg) (eta_list cfg)) ;;;
  if negb (path_exists w (samples_base_path cfg)) then
    print (LSamplesNotFound (samples_base_path cfg))
  else
    go <- check_reference cfg w ;;
    if negb go then ret tt
    else
      results <- sweep cfg w ;;
      print LAllDone ;;;
      report cfg results.

(** ** Worlds used in examples *)

(** Everything is on disk and the engine answers 5. *)
Definition world_all_ok : World := {|
  path_exists := fun _ => true;
  user_input := "n";
  calculate_fid_given_paths := fun _ _ _ => Returned 5%Q
|}.

(** The two roots exist, no sample folder does. *)
Definition world_no_samples : World := {|
  path_exists := fun p => (String.eqb p "./samples" || String.eqb p "./data/afhq/eval")%bool;
  user_input := "n";
  calculate_fid_given_paths := fun _ _ _ => Returned 5%Q
|}.

(** * Vocabulary of the properties *)

(** How a grid point ends, in the words of the specification. *)
Inductive status :=
| ok (v : Q)
| missing
| error.

Definition in_table (e : Q) : bool :=
  match dict_get eta_to_folder e with Some _ => true | None => false end.

Definition sample_path_of (cfg : Config) (s : Z) (token : string) : string :=
  path_join (samples_base_path cfg) (folder_name_of s token).

Definition token_status (cfg : Config) (w : World) (s : Z) (token : string) : status :=
  if negb (path_exists w (sample_path_of cfg s token)) then missing
  else match calculate_fid_given_paths w [reference_path cfg; sample_path_of cfg s token] 256 64 with
       | Returned v => ok v
       | Raised _ => error
       end.

(** The status of the grid point [(s, e)] in world [w]; an eta without a
    folder token has none. *)
Definition point_status (cfg : Config) (w : World) (s : Z) (e : Q) : option status :=
  option_map (token_status cfg w s) (dict_get eta_to_folder e).

Definition fid_of_status (st : option status) : cell :=
  match st with Some (ok v) => Some v | _ => None end.

(** The row the sweep appends at [(s, e)]. *)
Definition point_row (cfg : Config) (w : World) (s : Z) (e : Q) : Row :=
  mkRow s e (fid_of_status (point_status cfg w s e)).

(** The events of one pass through the loop body, [current] already
    incremented. *)
Definition point_trace (cfg : Config) (w : World) (total current : nat)
    (s : Z) (e : Q) (token : string) : list event :=
  Print (LProgress current total s e (folder_name_of s token)) ::
  (if negb (path_exists w (sample_path_of cfg s token)) then [Print LFolderNotFound]
   else FidCall [reference_path cfg; sample_path_of cfg s token] 256 64 ::
        match calculate_fid_given_paths w [reference_path cfg; sample_path_of cfg s token] 256 64 with
        | Returned v => [Print (LScore v)]
        | Raised msg => [Print (LError msg)]
        end).

Fixpoint row_trace (cfg : Config) (w : World) (total n : nat) (s : Z) (es : list Q) : list event :=
  match es with
  | [] => []
  | e :: es' =>
      match dict_get eta_to_folder e with
      | Some t => point_trace cfg w total (S n) s e t ++ row_trace cfg w total (S n) s es'
      | None => []
      end
  end.

Fixpoint grid_trace (cfg : Config) (w : World) (total n : nat) (ss : list Z) (es : list Q) : list event :=
  match ss with
  | [] => []
  | s :: ss' => row_trace cfg w total n s es ++ grid_trace cfg w total (n + List.length es) ss' es
  end.

(** The grid in iteration order: steps outside, eta inside. *)
Definition grid (ss : list Z) (es : list Q) : list (Z * Q) :=
  flat_map (fun s => map (fun e => (s, e)) es) ss.

Definition config (r : Row) : Z * Q := (steps r, eta r).

(** Identity of configuration points: same steps, same eta as numbers. *)
Definition config_eq (a b : Z * Q) : Prop := fst a = fst b /\ (snd a == snd b)%Q.

Definition sweep_rows (cfg : Config) (w : World) : list Row :=
  flat_map (fun s => map (point_row cfg w s) (eta_list cfg)) (steps_list cfg).

Definition is_engine_call (ev : event) : bool :=
  match ev with FidCall _ _ _ => true | _ => false end.

Definition is_artifact (ev : event) : bool :=
  match ev with
  | ExcelSaved _ _ | CsvSaved _ _ | TxtWritten _ _ => true
  | _ => false
  end.

(** A trace of the loop body: the progress line opens every pass. *)
Definition is_progress (ev : event) : bool :=
  match ev with Print (LProgress _ _ _ _ _) => true | _ => false end.

(** Steps 10 and 20, eta 0 and 1.0. *)
Definition scenario_config : Config := {|
  reference_path := "./data/afhq/eval";
  samples_base_path := "./samples";
  steps_list := [10; 20];
  eta_list := [0; 1]%Q
|}.

Definition scenario_engine (ok3 ok4 : string) (paths : list string) : engine_result :=
  match paths with
  | [_; p] =>
      if String.eqb p ok3 then Returned 3%Q
      else if String.eqb p ok4 then Returned 4%Q
      else Raised "engine failure"
  | _ => Raised "two paths expected"
  end.

(** The folder of (20, 1.0) is absent, the engine raises on (10, 1.0) and
    returns 3 and 4 on (10, 0) and (20, 0). *)
Definition scenario_world : World := {|
  path_exists := fun p => negb (String.eqb p "./samples/steps_20_eta_1");
  user_input := "";
  calculate_fid_given_paths := fun paths _ _ =>
    scenario_engine "./samples/steps_10_eta_0" "./samples/steps_20_eta_0" paths
|}.

(** The same, with the roles of (10, 1.0) and (20, 1.0) exchanged: now the
    folder of (10, 1.0) is absent and the engine raises on (20, 1.0). *)
Definition scenario_world_swapped : World := {|
  path_exists := fun p => negb (String.eqb p "./samples/steps_10_eta_1");
  user_input := "";
  calculate_fid_given_paths := fun paths _ _ =>
    scenario_engine "./samples/steps_10_eta_0" "./samples/steps_20_eta_0" paths
|}.

(** An eta list with a value, 0.3, that has no folder token. *)
Definition unknown_eta_config : Config := {|
  reference_path := "./data/afhq/eval";
  samples_base_path := "./samples";
  steps_list := [10];
  eta_list := [0; 3 # 10]%Q
|}.

(** The sample folder of a grid point, and whether it is on disk. *)
Definition sample_path (cfg : Config) (s : Z) (e : Q) : string :=
  match dict_get eta_to_folder e with
  | Some t => sample_path_of cfg s t
  | None => ""
  end.

Definition folder_present (cfg : Config) (w : World) (s : Z) (e : Q) : bool :=
  path_exists w (sample_path cfg s e).

Definition engine_call_at (cfg : Config) (s : Z) (e : Q) : event :=
  FidCall [reference_path cfg; sample_path cfg s e] 256 64.

(** The run gets past its two path checks. *)
Definition goes_on (cfg : Config) (w : World) : Prop :=
  path_exists w (samples_base_path cfg) = true /\
  (path_exists w (reference_path cfg) = true \/ answered_yes (user_input w) = true).

(** What is on the trace when the sweep starts. *)
Definition preamble (cfg : Config) (w : World) : list event :=
  Print (LBanner (reference_path cfg) (samples_base_path cfg)
                 (steps_list cfg) (eta_list cfg)) ::
  (if path_exists w (reference_path cfg) then []
   else [Print (LReferenceNotFound (reference_path cfg));
         Prompt "Continue anyway? (y/n): "]).

(** The numbers of a column, NaN dropped: the scores of the ok rows. *)
Fixpoint dropna (col : list cell) : list Q :=
  match col with
  | [] => []
  | Some v :: t => v :: dropna t
  | None :: t => dropna t
  end.

Definition ok_metrics (df : DataFrame) : list Q := dropna (map fid df).

(** [first_best R col j m]: cell [j] of [col] holds [m], no number of the
    column is better than [m] (for the order [R]), and every number before
    position [j] is strictly worse. *)
Definition first_best (R : Q -> Q -> Prop) (col : list cell) (j : nat) (m : Q) : Prop :=
  nth_error col j = Some (Some m) /\
  (forall k v, nth_error col k = Some (Some v) -> R m v) /\
  (forall k v, (k < j)%nat -> nth_error col k = Some (Some v) -> ~ R v m).

(** Arithmetic mean and sample variance of a list of numbers, as in a
    textbook; both undefined ([None]) when the divisor would be zero. *)
Definition Qsum (l : list Q) : Q := fold_right Qplus 0%Q l.

Definition mean_of (l : list Q) : cell :=
  match l with
  | [] => None
  | _ => Some (Qsum l / Qnat (List.length l))%Q
  end.

Definition sample_variance (l : list Q) : cell :=
  if (List.length l <? 2)%nat then None
  else
    let m := (Qsum l / Qnat (List.length l))%Q in
    Some (Qsum (map (fun x => (x - m) * (x - m)) l) / Qnat (List.length l - 1))%Q.

(** Cells that hold the same number, or are both NaN. *)
Definition cell_eq (a b : cell) : Prop :=
  match a, b with
  | None, None => True
  | Some x, Some y => (x == y)%Q
  | _, _ => False
  end.

(** The distinct values of a list, for a boolean equality (the last
    occurrence of each value is the one kept). *)
Fixpoint distinct {A : Type} (eqb : A -> A -> bool) (l : list A) : list A :=
  match l with
  | [] => []
  | x :: t => if existsb (eqb x) t then distinct eqb t else x :: distinct eqb t
  end.

(** Position of a column label. *)
Fixpoint index_of (e : Q) (l : list Q) : option nat :=
  match l with
  | [] => None
  | x :: t => if Qeq_bool x e then Some 0%nat else option_map S (index_of e t)
  end.

(** Reading the pivoted frame at row label [s] and column label [e]:
    [None] when there is no such row or column. *)
Definition pivot_cell (p : PivotTable) (s : Z) (e : Q) : option cell :=
  match find (fun r => fst r =? s) (rows p), index_of e (columns p) with
  | Some (_, cells), Some i => nth_error cells i
  | _, _ => None
  end.

(** An eta list that is not ascending. *)
Definition unsorted_config : Config := {|
  reference_path := "./data/afhq/eval";
  samples_base_path := "./samples";
  steps_list := [10];
  eta_list := [1; 0]%Q
|}.

(** The average lines of the text report, as (label, average) pairs. *)
Definition txt_eta_avgs (items : list txt_item) : list (Q * cell) :=
  flat_map (fun it => match it with TAvgEta e a => [(e, a)] | _ => [] end) items.

Definition txt_steps_avgs (items : list txt_item) : list (Z * cell) :=
  flat_map (fun it => match it with TAvgSteps s a => [(s, a)] | _ => [] end) items.

(** The table, workbook and text items of the scenario run. *)
Definition scenario_table : PivotTable :=
  {| columns := [0; 1]%Q;
     rows := [(10, [Some 3%Q; None]); (20, [Some 4%Q; None])] |}.

Definition scenario_workbook : Workbook :=
  build_workbook (sweep_rows scenario_config scenario_world) scenario_table.

Definition scenario_items : list txt_item :=
  fst (text_report scenario_config (sweep_rows scenario_config scenario_world)
                   scenario_table).

(** * Vocabulary of the further properties *)

From Stdlib Require DecimalPos DecimalZ.

Definition is_prompt (ev : event) : bool :=
  match ev with Prompt _ => true | _ => false end.

(** The events the loop body produces. *)
Definition is_sweep_event (ev : event) : bool :=
  match ev with
  | Print (LProgress _ _ _ _ _) | Print LFolderNotFound
  | Print (LScore _) | Print (LError _) | FidCall _ _ _ => true
  | _ => false
  end.

(** The events the report stage produces. *)
Definition is_report_event (ev : event) : bool :=
  match ev with
  | Print (LTable _) | Print (LSaved _) | Print LSummaryTitle
  | Print (LBest _ _ _) | Print (LWorst _ _ _) | Print (LOverall _ _)
  | ExcelSaved _ _ | CsvSaved _ _ | TxtWritten _ _ => true
  | _ => false
  end.

(** The run gets past its two path checks, as a test. *)
Definition goes_on_b (cfg : Config) (w : World) : bool :=
  (path_exists w (samples_base_path cfg) &&
   (path_exists w (reference_path cfg) || answered_yes (user_input w)))%bool.

(** The scores the console shows during the sweep, in order. *)
Definition printed_scores (tr : list event) : list Q :=
  flat_map (fun ev => match ev with Print (LScore v) => [v] | _ => [] end) tr.

(** The progress line of the [k]-th pass (counting from 0) through the
    loop body, at grid point [p]. *)
Definition progress_line (total : nat) (k : nat) (p : Z * Q) : event :=
  Print (LProgress (S k) total (fst p) (snd p)
           (folder_name_of (fst p)
              (match dict_get eta_to_folder (snd p) with Some t => t | None => "" end))).

(** [enumerate_from n l]: the elements of [l] with their positions,
    counted from [n]. *)
Fixpoint enumerate_from {A : Type} (n : nat) (l : list A) : list (nat * A) :=
  match l with
  | [] => []
  | x :: t => (n, x) :: enumerate_from (S n) t
  end.

(** A string without the character "_". *)
Fixpoint no_underscore (s : string) : bool :=
  match s with
  | EmptyString => true
  | String c s' => (negb (Ascii.eqb c "_") && no_underscore s')%bool
  end.

(** Two steps values, the second repeated. *)
Definition repeated_steps_config : Config := {|
  reference_path := "./data/afhq/eval";
  samples_base_path := "./samples";
  steps_list := [10; 20; 10];
  eta_list := [0; 1]%Q
|}.

(** No steps value at all. *)
Definition empty_steps_config : Config := {|
  reference_path := "./data/afhq/eval";
  samples_base_path := "./samples";
  steps_list := [];
  eta_list := [0; 1]%Q
|}.

(** The sample root is there, the reference set is not, and the user
    answers "n". *)
Definition world_no_reference : World := {|
  path_exists := fun p => negb (String.eqb p "./data/afhq/eval");
  user_input := "n";
  calculate_fid_given_paths := fun _ _ _ => Returned 5%Q
|}.

(** What follows the sweep on the trace. *)
Definition after_sweep (cfg : Config) (w : World) : list event :=
  match snd (sweep cfg w) with
  | Done rs => Print LAllDone :: fst (report cfg rs)
  | Raise _ => []
  end.
(** * Properties *)

(** ** The sweep, point by point *)

Lemma bind_done {A B} (m : M A) (f : A -> M B) t a t' r :
  m = (t, Done a) -> f a = (t', r) -> bind m f = (t ++ t', r).
Proof. intros -> H. unfold bind. now rewrite H. Qed.

Lemma bind_raise {A B} (m : M A) (f : A -> M B) t e :
  m = (t, Raise e) -> bind m f = (t, Raise e).
Proof. now intros ->. Qed.

Lemma process_point_eq cfg w total s e n rs :
  process_point cfg w total s e (n, rs) =
  match dict_get eta_to_folder e with
  | Some t => (point_trace cfg w total (S n) s e t, Done (S n, rs ++ [point_row cfg w s e]))
  | None => ([], Raise (KeyError_eta e))
  end.
Proof.
  unfold process_point, point_row, point_status, point_trace, token_status, sample_path_of.
  destruct (dict_get eta_to_folder e) as [t|]; cbn; [|reflexivity].
  destruct (path_exists w _); cbn; [|reflexivity].
  destruct (calculate_fid_given_paths w _ 256 64); reflexivity.
Qed.

Lemma process_point_some cfg w total s e n rs t :
  dict_get eta_to_folder e = Some t ->
  process_point cfg w total s e (n, rs) =
  (point_trace cfg w total (S n) s e t, Done (S n, rs ++ [point_row cfg w s e])).
Proof. intros H. now rewrite process_point_eq, H. Qed.

Lemma process_point_none cfg w total s e n rs :
  in_table e = false ->
  process_point cfg w total s e (n, rs) = ([], Raise (KeyError_eta e)).
Proof.
  unfold in_table. intros H. rewrite process_point_eq.
  now destruct (dict_get eta_to_folder e).
Qed.

Lemma inner_loop_ok cfg w total s es : forall n rs,
  forallb in_table es = true ->
  for_each es (process_point cfg w total s) (n, rs) =
  (row_trace cfg w total n s es,
   Done ((n + List.length es)%nat, rs ++ map (point_row cfg w s) es)).
Proof.
  induction es as [|e es IH]; intros n rs Hes; cbn [for_each row_trace List.length map].
  - unfold ret. now rewrite Nat.add_0_r, app_nil_r.
  - cbn in Hes. apply andb_true_iff in Hes as [He Hes].
    unfold in_table in He.
    destruct (dict_get eta_to_folder e) as [t|] eqn:Ht; [|discriminate].
    erewrite bind_done; [| apply process_point_some, Ht | apply IH, Hes].
    now rewrite <- app_assoc, Nat.add_succ_r.
Qed.

Lemma inner_loop_fail cfg w total s pre e post : forall n rs,
  forallb in_table pre = true -> in_table e = false ->
  for_each (pre ++ e :: post) (process_point cfg w total s) (n, rs) =
  (row_trace cfg w total n s pre, Raise (KeyError_eta e)).
Proof.
  induction pre as [|x pre IH]; intros n rs Hpre He; cbn [for_each row_trace app].
  - apply bind_raise, process_point_none, He.
  - cbn in Hpre. apply andb_true_iff in Hpre as [Hx Hpre].
    unfold in_table in Hx.
    destruct (dict_get eta_to_folder x) as [t|] eqn:Ht; [|discriminate].
    rewrite <- app_comm_cons. cbn [for_each].
    erewrite bind_done; [reflexivity | apply process_point_some, Ht | apply IH; assumption].
Qed.

Lemma outer_loop_ok cfg w total es ss : forall n rs,
  forallb in_table es = true ->
  for_each ss (fun s => for_each es (process_point cfg w total s)) (n, rs) =
  (grid_trace cfg w total n ss es,
   Done ((n + List.length ss * List.length es)%nat,
         rs ++ flat_map (fun s => map (point_row cfg w s) es) ss)).
Proof.
  induction ss as [|s ss IH]; intros n rs Hes; cbn [for_each grid_trace List.length flat_map].
  - unfold ret. now rewrite Nat.add_0_r, app_nil_r.
  - erewrite bind_done; [| apply inner_loop_ok, Hes | apply IH, Hes].
    f_equal. f_equal. f_equal; [cbn; lia | now rewrite app_assoc].
Qed.

(** A list either passes a test everywhere or has a first failure. *)
Lemma first_failure {A} (p : A -> bool) (l : list A) :
  forallb p l = true \/
  exists pre x post, l = pre ++ x :: post /\ forallb p pre = true /\ p x = false.
Proof.
  induction l as [|a l [IH | (pre & x & post & -> & Hpre & Hx)]]; cbn.
  - now left.
  - destruct (p a) eqn:Ha; [now left|].
    right. exists [], a, l. auto.
  - destruct (p a) eqn:Ha.
    + right. exists (a :: pre), x, post. cbn. rewrite Ha. auto.
    + right. exists [], a, (pre ++ x :: post). auto.
Qed.

Lemma sweep_ok cfg w :
  forallb in_table (eta_list cfg) = true ->
  sweep cfg w =
  (grid_trace cfg w (List.length (steps_list cfg) * List.length (eta_list cfg)) 0
              (steps_list cfg) (eta_list cfg),
   Done (sweep_rows cfg w)).
Proof.
  intros H. unfold sweep.
  erewrite bind_done; [| apply outer_loop_ok, H | reflexivity].
  now rewrite app_nil_r.
Qed.

Lemma sweep_fail cfg w s0 ss pre e post :
  steps_list cfg = s0 :: ss -> eta_list cfg = pre ++ e :: post ->
  forallb in_table pre = true -> in_table e = false ->
  sweep cfg w =
  (row_trace cfg w (List.length (steps_list cfg) * List.length (eta_list cfg)) 0 s0 pre,
   Raise (KeyError_eta e)).
Proof.
  intros Hs He Hpre Hx. unfold sweep.
  remember (List.length (steps_list cfg) * List.length (eta_list cfg))%nat as total.
  apply bind_raise. rewrite Hs, He. cbn [for_each].
  apply bind_raise. now apply inner_loop_fail.
Qed.

(** When the sweep hands a result to the reports, it is the row of every
    grid point, in grid order. *)
Lemma sweep_done_rows cfg w tr rs :
  sweep cfg w = (tr, Done rs) -> rs = sweep_rows cfg w.
Proof.
  intros H.
  destruct (steps_list cfg) as [|s0 ss] eqn:Hs.
  - unfold sweep, sweep_rows in *. rewrite Hs in *. cbn in H. now inversion H.
  - destruct (first_failure in_table (eta_list cfg)) as [Hok | (pre & x & post & He & Hpre & Hx)].
    + rewrite (sweep_ok _ _ Hok) in H. now inversion H.
    + rewrite (sweep_fail _ _ _ _ _ _ _ Hs He Hpre Hx) in H. discriminate.
Qed.

Lemma config_sweep_rows cfg w :
  map config (sweep_rows cfg w) = grid (steps_list cfg) (eta_list cfg).
Proof.
  unfold sweep_rows, grid.
  induction (steps_list cfg) as [|s ss IH]; cbn; [reflexivity|].
  rewrite map_app, IH, map_map. reflexivity.
Qed.

Lemma length_grid ss es : List.length (grid ss es) = (List.length ss * List.length es)%nat.
Proof.
  unfold grid. induction ss as [|s ss IH]; cbn; [reflexivity|].
  now rewrite length_app, length_map, IH.
Qed.

(** ** Configuration points of the grid are distinct *)

#[local] Instance config_eq_Equivalence : Equivalence config_eq.
Proof.
  split.
  - intros [s e]. split; reflexivity.
  - intros a b [H1 H2]. split; now symmetry.
  - intros a b c [H1 H2] [H3 H4]. split; etransitivity; eassumption.
Qed.

Lemma InA_grid_row s es p :
  InA config_eq p (map (fun e => (s, e)) es) -> fst p = s /\ InA Qeq (snd p) es.
Proof.
  induction es as [|e es IH]; cbn; intros H; inversion H; subst.
  - destruct H1 as [H1 H2]. cbn in *. split; [assumption | now left].
  - destruct (IH H1) as [Hs Hi]. split; [assumption | now right].
Qed.

Lemma InA_grid ss es p :
  InA config_eq p (grid ss es) -> In (fst p) ss.
Proof.
  unfold grid. induction ss as [|s ss IH]; cbn; intros H.
  - inversion H.
  - apply InA_app in H as [H | H].
    + left. now destruct (InA_grid_row _ _ _ H).
    + right. now apply IH.
Qed.

Lemma NoDupA_grid_row s es :
  NoDupA Qeq es -> NoDupA config_eq (map (fun e => (s, e)) es).
Proof.
  induction 1 as [|e es Hin Hnd IH]; cbn; constructor; [|assumption].
  intros H. apply InA_grid_row in H as [_ H]. now apply Hin.
Qed.

Lemma NoDupA_grid ss es :
  NoDup ss -> NoDupA Qeq es -> NoDupA config_eq (grid ss es).
Proof.
  intros Hss Hes. unfold grid.
  induction Hss as [|s ss Hin Hnd IH]; cbn; [constructor|].
  apply NoDupA_app; [typeclasses eauto | now apply NoDupA_grid_row | exact IH |].
  intros p H1 H2. apply InA_grid_row in H1 as [H1 _]. apply InA_grid in H2.
  now subst.
Qed.

(** ** C1 *)

(** C1. Whenever the sweep hands its results to the reports, they hold
    exactly one row per grid point, in grid order: their number is
    [len(steps_list) * len(eta_list)], and no two rows share a
    configuration point when neither list repeats a value.  This holds in
    every world, whatever folders are absent and whatever the engine
    raises; and when every eta has a folder token the sweep always gets
    there. *)
Theorem C1_one_row_per_grid_point (cfg : Config) (w : World) :
  (forall tr rs, sweep cfg w = (tr, Done rs) ->
     map config rs = grid (steps_list cfg) (eta_list cfg) /\
     List.length rs = (List.length (steps_list cfg) * List.length (eta_list cfg))%nat /\
     (NoDup (steps_list cfg) -> NoDupA Qeq (eta_list cfg) ->
      NoDupA config_eq (map config rs))) /\
  (forallb in_table (eta_list cfg) = true ->
   exists tr rs, sweep cfg w = (tr, Done rs)).
Proof.
  split.
  - intros tr rs H. apply sweep_done_rows in H. subst rs.
    assert (Hc := config_sweep_rows cfg w).
    split; [exact Hc|]. split.
    + now rewrite <- (length_map config), Hc, length_grid.
    + intros Hs He. rewrite Hc. now apply NoDupA_grid.
  - intros H. eexists. eexists. apply sweep_ok, H.
Qed.

Lemma C1_scenario_witness :
  exists tr rs, sweep scenario_config scenario_world = (tr, Done rs) /\
                List.length rs = 4%nat.
Proof.
  destruct (C1_one_row_per_grid_point scenario_config scenario_world) as [Hrows Hdone].
  destruct (Hdone eq_refl) as (tr & rs & H).
  exists tr, rs. split; [exact H|].
  exact (proj1 (proj2 (Hrows tr rs H))).
Defined.

(** ** C10 *)

Lemma main_no_samples cfg w :
  path_exists w (samples_base_path cfg) = false ->
  main cfg w =
  ([Print (LBanner (reference_path cfg) (samples_base_path cfg)
                   (steps_list cfg) (eta_list cfg));
    Print (LSamplesNotFound (samples_base_path cfg))], Done tt).
Proof. intros H. unfold main. now rewrite H. Qed.

(** C10. When the sample root does not exist, the run prints the banner and
    the error line and returns: the trace holds no engine call, no pass
    through the loop body and no written file. *)
Theorem C10_missing_sample_root_returns_at_once (cfg : Config) (w : World) :
  path_exists w (samples_base_path cfg) = false ->
  exists tr,
    main cfg w = (tr, Done tt) /\
    tr = [Print (LBanner (reference_path cfg) (samples_base_path cfg)
                         (steps_list cfg) (eta_list cfg));
          Print (LSamplesNotFound (samples_base_path cfg))] /\
    existsb is_engine_call tr = false /\
    existsb is_progress tr = false /\
    existsb is_artifact tr = false.
Proof.
  intros H. eexists. split; [|split; [reflexivity|]].
  - apply main_no_samples, H.
  - repeat split.
Qed.

Lemma C10_witness :
  path_exists {| path_exists := fun _ => false; user_input := "y";
                 calculate_fid_given_paths := fun _ _ _ => Returned 5%Q |}
              (samples_base_path default_config) = false /\
  exists tr,
    main default_config
         {| path_exists := fun _ => false; user_input := "y";
            calculate_fid_given_paths := fun _ _ _ => Returned 5%Q |} = (tr, Done tt) /\
    existsb is_engine_call tr = false.
Proof.
  split; [reflexivity|].
  destruct (C10_missing_sample_root_returns_at_once default_config
              {| path_exists := fun _ => false; user_input := "y";
                 calculate_fid_given_paths := fun _ _ _ => Returned 5%Q |} eq_refl)
    as (tr & Hm & _ & He & _).
  exists tr. split; assumption.
Defined.


(** ** Past the path checks *)

Lemma main_goes_on cfg w :
  goes_on cfg w ->
  main cfg w =
  bind (preamble cfg w, Done tt)
       (fun _ => results <- sweep cfg w ;; print LAllDone ;;; report cfg results).
Proof.
  intros [Hs Hr]. unfold main, check_reference, preamble. rewrite Hs.
  destruct (path_exists w (reference_path cfg)); cbn.
  - destruct (results <- sweep cfg w ;; _) as [t r]. reflexivity.
  - destruct Hr as [Hr | Hr]; [discriminate|]. rewrite Hr. cbn.
    destruct (results <- sweep cfg w ;; _) as [t r]. reflexivity.
Qed.

Lemma main_sweep_raises cfg w tr e :
  goes_on cfg w -> sweep cfg w = (tr, Raise e) ->
  main cfg w = (preamble cfg w ++ tr, Raise e).
Proof.
  intros Hgo Hsw. rewrite (main_goes_on _ _ Hgo).
  eapply bind_done; [reflexivity|]. now apply bind_raise.
Qed.

Lemma main_sweep_done cfg w t1 rs t2 r :
  goes_on cfg w -> sweep cfg w = (t1, Done rs) -> report cfg rs = (t2, r) ->
  main cfg w = (preamble cfg w ++ t1 ++ Print LAllDone :: t2, r).
Proof.
  intros Hgo Hsw Hr. rewrite (main_goes_on _ _ Hgo).
  eapply bind_done; [reflexivity|].
  eapply bind_done; [exact Hsw|].
  eapply (bind_done _ _ [Print LAllDone]); [reflexivity | exact Hr].
Qed.

Lemma main_declined cfg w :
  path_exists w (samples_base_path cfg) = true ->
  path_exists w (reference_path cfg) = false ->
  answered_yes (user_input w) = false ->
  main cfg w = (preamble cfg w, Done tt).
Proof.
  intros Hs Hr Hn. unfold main, check_reference, preamble. now rewrite Hs, Hr, Hn.
Qed.

(** The three ways a run can go. *)
Lemma main_cases cfg w :
  path_exists w (samples_base_path cfg) = false \/
  (path_exists w (samples_base_path cfg) = true /\
   path_exists w (reference_path cfg) = false /\
   answered_yes (user_input w) = false) \/
  goes_on cfg w.
Proof.
  unfold goes_on.
  destruct (path_exists w (samples_base_path cfg)); [|now left].
  destruct (path_exists w (reference_path cfg)); [right; right; auto|].
  destruct (answered_yes (user_input w)); [right; right; auto | right; left; auto].
Qed.

Lemma preamble_quiet cfg w :
  filter is_engine_call (preamble cfg w) = [] /\
  existsb is_artifact (preamble cfg w) = false /\
  existsb is_progress (preamble cfg w) = false.
Proof. unfold preamble. now destruct (path_exists w (reference_path cfg)). Qed.

Lemma point_trace_no_artifact cfg w total n s e t :
  existsb is_artifact (point_trace cfg w total n s e t) = false.
Proof.
  unfold point_trace. destruct (path_exists w _); cbn; [|reflexivity].
  now destruct (calculate_fid_given_paths w _ 256 64).
Qed.

Lemma row_trace_no_artifact cfg w total s es : forall n,
  existsb is_artifact (row_trace cfg w total n s es) = false.
Proof.
  induction es as [|e es IH]; intros n; cbn [row_trace]; [reflexivity|].
  destruct (dict_get eta_to_folder e); [|reflexivity].
  now rewrite existsb_app, point_trace_no_artifact, IH.
Qed.

Lemma grid_trace_no_artifact cfg w total es ss : forall n,
  existsb is_artifact (grid_trace cfg w total n ss es) = false.
Proof.
  induction ss as [|s ss IH]; intros n; cbn [grid_trace]; [reflexivity|].
  now rewrite existsb_app, row_trace_no_artifact, IH.
Qed.

Lemma row_trace_engine_calls cfg w total s es : forall n,
  forallb in_table es = true ->
  filter is_engine_call (row_trace cfg w total n s es) =
  map (engine_call_at cfg s) (filter (folder_present cfg w s) es).
Proof.
  induction es as [|e es IH]; intros n Hes; cbn [row_trace filter]; [reflexivity|].
  cbn in Hes. apply andb_true_iff in Hes as [He Hes].
  unfold in_table in He.
  destruct (dict_get eta_to_folder e) as [t|] eqn:Ht; [|discriminate].
  assert (Hp : folder_present cfg w s e = path_exists w (sample_path_of cfg s t))
    by (unfold folder_present, sample_path; now rewrite Ht).
  assert (Hc : engine_call_at cfg s e =
               FidCall [reference_path cfg; sample_path_of cfg s t] 256 64)
    by (unfold engine_call_at, sample_path; now rewrite Ht).
  rewrite filter_app, (IH _ Hes), Hp. unfold point_trace.
  destruct (path_exists w (sample_path_of cfg s t)); cbn [negb filter is_engine_call app map].
  - rewrite Hc. now destruct (calculate_fid_given_paths w _ 256 64).
  - reflexivity.
Qed.

(** ** C2 *)

(** C2, as the claim states it, fails: with eta list [0, 0.3] the engine
    has been run on the folder of (10, 0) when the lookup of 0.3 raises. *)
Lemma C2_engine_runs_before_the_lookup_fails :
  In (3 # 10)%Q (eta_list unknown_eta_config) /\
  in_table (3 # 10) = false /\
  main unknown_eta_config world_all_ok =
  ([Print (LBanner "./data/afhq/eval" "./samples" [10] [0; 3 # 10]%Q);
    Print (LProgress 1 2 10 0 "steps_10_eta_0");
    FidCall ["./data/afhq/eval"; "./samples/steps_10_eta_0"] 256 64;
    Print (LScore 5)],
   Raise (KeyError_eta (3 # 10))).
Proof. split; [right; now left | split; reflexivity]. Qed.

(** C2, amended. When the eta list holds a value without a folder token
    (and there is at least one steps value and the run gets past its path
    checks), the run ends with the [KeyError] of the first such value,
    raised when the loop reaches it in the first row of the grid.  The
    engine has then been called exactly on the folders present for the eta
    values before it, in order (so not at all when it is first in the
    list), and no report file is written. *)
Theorem C2_unknown_eta_raises_when_reached
    (cfg : Config) (w : World) (s0 : Z) (ss : list Z) (pre : list Q) (e : Q) (post : list Q) :
  steps_list cfg = s0 :: ss ->
  eta_list cfg = pre ++ e :: post ->
  forallb in_table pre = true ->
  in_table e = false ->
  goes_on cfg w ->
  exists tr,
    main cfg w = (tr, Raise (KeyError_eta e)) /\
    filter is_engine_call tr =
      map (engine_call_at cfg s0) (filter (folder_present cfg w s0) pre) /\
    existsb is_artifact tr = false.
Proof.
  intros Hs He Hpre Hx Hgo.
  eexists. split; [|split].
  - apply main_sweep_raises; [exact Hgo|].
    eapply sweep_fail; eassumption.
  - rewrite filter_app, (proj1 (preamble_quiet cfg w)).
    now apply row_trace_engine_calls.
  - rewrite existsb_app, (proj1 (proj2 (preamble_quiet cfg w))).
    apply row_trace_no_artifact.
Qed.

Lemma C2_unknown_eta_witness :
  exists tr,
    main unknown_eta_config world_all_ok = (tr, Raise (KeyError_eta (3 # 10))) /\
    filter is_engine_call tr =
      [FidCall ["./data/afhq/eval"; "./samples/steps_10_eta_0"] 256 64] /\
    existsb is_artifact tr = false.
Proof.
  exact (C2_unknown_eta_raises_when_reached unknown_eta_config world_all_ok
           10 [] [0%Q] (3 # 10)%Q [] eq_refl eq_refl eq_refl eq_refl
           (conj eq_refl (or_introl eq_refl))).
Defined.

(** ** C5 *)

Lemma in_sweep_rows cfg w r :
  In r (sweep_rows cfg w) ->
  exists s e, In s (steps_list cfg) /\ In e (eta_list cfg) /\ r = point_row cfg w s e.
Proof.
  unfold sweep_rows. intros H. apply in_flat_map in H as (s & Hs & H).
  apply in_map_iff in H as (e & <- & He). eauto.
Qed.

Lemma sweep_done_in_table cfg w tr rs e :
  sweep cfg w = (tr, Done rs) -> steps_list cfg <> [] -> In e (eta_list cfg) ->
  in_table e = true.
Proof.
  intros H Hne He.
  destruct (steps_list cfg) as [|s0 ss] eqn:Hs; [contradiction|].
  destruct (first_failure in_table (eta_list cfg)) as [Hok | (pre & x & post & Hx & Hpre & Hbad)].
  - rewrite forallb_forall in Hok. now apply Hok.
  - rewrite (sweep_fail _ _ _ _ _ _ _ Hs Hx Hpre Hbad) in H. discriminate.
Qed.

(** C5, as the claim states it, fails: the rows carry no status.  In the
    scenario of the claim the statuses are ok, error, ok, missing; with the
    absent folder and the failing engine call exchanged they are ok,
    missing, ok, error; the sweep returns the same rows in both worlds. *)
Lemma C5_missing_and_error_leave_the_same_rows :
  map (fun p => point_status scenario_config scenario_world (fst p) (snd p))
      (grid [10; 20] [0; 1]%Q)
  = [Some (ok 3); Some error; Some (ok 4); Some missing] /\
  map (fun p => point_status scenario_config scenario_world_swapped (fst p) (snd p))
      (grid [10; 20] [0; 1]%Q)
  = [Some (ok 3); Some missing; Some (ok 4); Some error] /\
  snd (sweep scenario_config scenario_world) =
  snd (sweep scenario_config scenario_world_swapped).
Proof. repeat split. Qed.

(** C5, amended. Every row the sweep hands on carries, besides its
    configuration, one field [fid]: it holds the score exactly when the
    folder was present and the engine returned that score, and it is [None]
    exactly when the folder was absent or the engine raised, with nothing
    in the row to tell these two apart. *)
Theorem C5_rows_carry_a_score_or_None (cfg : Config) (w : World) tr rs :
  sweep cfg w = (tr, Done rs) ->
  Forall (fun r =>
    (forall v, fid r = Some v <-> point_status cfg w (steps r) (eta r) = Some (ok v)) /\
    (fid r = None <->
       point_status cfg w (steps r) (eta r) = Some missing \/
       point_status cfg w (steps r) (eta r) = Some error)) rs.
Proof.
  intros H. rewrite (sweep_done_rows _ _ _ _ H).
  apply Forall_forall. intros r Hr.
  apply in_sweep_rows in Hr as (s & e & Hs & He & ->).
  assert (Ht : in_table e = true).
  { eapply sweep_done_in_table; eauto. intros Hnil. rewrite Hnil in Hs. contradiction. }
  unfold in_table in Ht. unfold point_row, point_status, mkRow. cbn [steps eta fid].
  destruct (dict_get eta_to_folder e) as [t|]; [|discriminate].
  cbn [option_map fid_of_status].
  destruct (token_status cfg w s t); split; split; intros Hx;
    try discriminate; try (now inversion Hx); try tauto;
    try (destruct Hx; discriminate).
Qed.

Lemma C5_scenario_witness :
  exists tr rs,
    sweep scenario_config scenario_world = (tr, Done rs) /\
    map fid rs = [Some 3%Q; None; Some 4%Q; None] /\
    Forall (fun r =>
      fid r = None <->
        point_status scenario_config scenario_world (steps r) (eta r) = Some missing \/
        point_status scenario_config scenario_world (steps r) (eta r) = Some error) rs.
Proof.
  eexists. eexists. split; [reflexivity|]. split; [reflexivity|].
  eapply Forall_impl;
    [| exact (C5_rows_carry_a_score_or_None scenario_config scenario_world _ _ eq_refl)].
  intros r [_ H]. exact H.
Defined.

(** ** idxmin and idxmax *)

Lemma nth_error_cons_Some {A} (a : A) l k x :
  nth_error (a :: l) k = Some x ->
  (k = 0%nat /\ x = a) \/ exists k', k = S k' /\ nth_error l k' = Some x.
Proof.
  destruct k as [|k']; cbn; intros H.
  - left. split; congruence.
  - right. eauto.
Qed.

Section ArgBest.
Variable better : Q -> Q -> bool.
Variable R : Q -> Q -> Prop.
Hypothesis R_trans : forall a b c, R a b -> R b c -> R a c.
Hypothesis R_total : forall a b, R a b \/ R b a.
Hypothesis better_true : forall v b, better v b = true -> ~ R b v.
Hypothesis better_false : forall v b, better v b = false -> R b v.

Lemma first_best_here v t :
  (forall k x, nth_error t k = Some (Some x) -> R v x) ->
  first_best R (Some v :: t) 0 v.
Proof.
  intros H. split; [reflexivity|]. split.
  - intros k x Hk. apply nth_error_cons_Some in Hk as [[_ Hx] | (k' & _ & Hk)].
    + inversion Hx. destruct (R_total v v); assumption.
    + eauto.
  - intros k x Hk. lia.
Qed.

Lemma first_best_later v t j m :
  first_best R t j m -> ~ R v m -> first_best R (Some v :: t) (S j) m.
Proof.
  intros (Hj & Hall & Hfirst) Hv. split; [exact Hj|]. split.
  - intros k x Hk. apply nth_error_cons_Some in Hk as [[_ Hx] | (k' & _ & Hk)].
    + inversion Hx. subst. destruct (R_total m v); [assumption | contradiction].
    + eauto.
  - intros k x Hlt Hk. apply nth_error_cons_Some in Hk as [[_ Hx] | (k' & -> & Hk)].
    + inversion Hx. now subst.
    + apply (Hfirst k' x); [lia | exact Hk].
Qed.

Lemma first_best_skip t j m :
  first_best R t j m -> first_best R (None :: t) (S j) m.
Proof.
  intros (Hj & Hall & Hfirst). split; [exact Hj|]. split.
  - intros k x Hk. apply nth_error_cons_Some in Hk as [[_ Hx] | (k' & _ & Hk)]; [discriminate | eauto].
  - intros k x Hlt Hk. apply nth_error_cons_Some in Hk as [[_ Hx] | (k' & -> & Hk)]; [discriminate|].
    apply (Hfirst k' x); [lia | exact Hk].
Qed.

(** The scan either keeps the value it started with, which no number of
    the column beats, or ends on the first best number of the column,
    which beats the starting value. *)
Lemma arg_best_inv col : forall i best,
  match best with
  | None =>
      (arg_best better col i best = None /\ dropna col = []) \/
      (exists j m, arg_best better col i best = Some ((i + j)%nat, m) /\ first_best R col j m)
  | Some (jb, b) =>
      (arg_best better col i best = Some (jb, b) /\
       forall k x, nth_error col k = Some (Some x) -> R b x) \/
      (exists j m, arg_best better col i best = Some ((i + j)%nat, m) /\
                   first_best R col j m /\ ~ R b m)
  end.
Proof.
  induction col as [|c t IH]; intros i best.
  - destruct best as [[jb b]|]; left; (split; [reflexivity|]); [|reflexivity].
    intros [|k] x Hk; discriminate.
  - destruct c as [v|].
    + (* a number *)
      assert (Hnew :
        (exists j m, arg_best better t (S i) (Some (i, v)) = Some ((i + j)%nat, m) /\
                     first_best R (Some v :: t) j m /\ R m v)).
      { specialize (IH (S i) (Some (i, v))). cbn in IH.
        destruct IH as [[E H] | (j & m & E & Hfb & Hbeat)].
        - exists 0%nat, v. rewrite Nat.add_0_r. split; [exact E|]. split.
          + now apply first_best_here.
          + destruct (R_total v v); assumption.
        - exists (S j), m. rewrite Nat.add_succ_r. split; [exact E|]. split.
          + now apply first_best_later.
          + destruct (R_total m v); [assumption | contradiction]. }
      destruct best as [[jb b]|]; cbn [arg_best].
      * destruct (better v b) eqn:Eb.
        -- right. destruct Hnew as (j & m & E & Hfb & Hmv).
           exists j, m. split; [exact E|]. split; [exact Hfb|].
           intros Hbm. apply (better_true _ _ Eb). eauto.
        -- apply better_false in Eb.
           specialize (IH (S i) (Some (jb, b))). cbn in IH.
           destruct IH as [[E H] | (j & m & E & Hfb & Hbeat)].
           ++ left. split; [exact E|].
              intros k x Hk. apply nth_error_cons_Some in Hk as [[_ Hx] | (k' & _ & Hk)].
              ** inversion Hx. now subst.
              ** eauto.
           ++ right. exists (S j), m. rewrite Nat.add_succ_r. split; [exact E|].
              split; [|exact Hbeat].
              apply first_best_later; [exact Hfb|].
              intros Hvm. apply Hbeat. eauto.
      * right. destruct Hnew as (j & m & E & Hfb & _). eauto.
    + (* NaN *)
      cbn [arg_best dropna]. specialize (IH (S i) best).
      destruct best as [[jb b]|].
      * destruct IH as [[E H] | (j & m & E & Hfb & Hbeat)].
        -- left. split; [exact E|].
           intros k x Hk. apply nth_error_cons_Some in Hk as [[_ Hx] | (k' & _ & Hk)];
             [discriminate | eauto].
        -- right. exists (S j), m. rewrite Nat.add_succ_r.
           split; [exact E|]. split; [now apply first_best_skip | exact Hbeat].
      * destruct IH as [[E H] | (j & m & E & Hfb)].
        -- left. now split.
        -- right. exists (S j), m. rewrite Nat.add_succ_r.
           split; [exact E|]. now apply first_best_skip.
Qed.

Lemma arg_best_first col :
  (arg_best better col 0 None = None /\ dropna col = []) \/
  (exists j m, arg_best better col 0 None = Some (j, m) /\ first_best R col j m).
Proof. exact (arg_best_inv col 0%nat None). Qed.
End ArgBest.

Lemma Qlt_bool_true a b : Qlt_bool a b = true -> ~ (b <= a)%Q.
Proof.
  unfold Qlt_bool. intros H Hle. apply Qle_bool_iff in Hle. rewrite Hle in H. discriminate.
Qed.

Lemma Qlt_bool_false a b : Qlt_bool a b = false -> (b <= a)%Q.
Proof.
  unfold Qlt_bool. intros H. apply Qle_bool_iff.
  now destruct (Qle_bool b a).
Qed.

Lemma Qle_total a b : (a <= b)%Q \/ (b <= a)%Q.
Proof. destruct (Qlt_le_dec a b) as [H|H]; [left; now apply Qlt_le_weak | now right]. Qed.

Lemma idxmin_spec col :
  (idxmin col = None /\ dropna col = []) \/
  (exists j m, idxmin col = Some j /\ first_best Qle col j m).
Proof.
  unfold idxmin.
  destruct (arg_best_first Qlt_bool Qle Qle_trans Qle_total Qlt_bool_true Qlt_bool_false col)
    as [[E H] | (j & m & E & H)]; rewrite E; cbn; eauto.
Qed.

Lemma idxmax_spec col :
  (idxmax col = None /\ dropna col = []) \/
  (exists j m, idxmax col = Some j /\ first_best (fun a b => (b <= a)%Q) col j m).
Proof.
  unfold idxmax.
  destruct (arg_best_first (fun v b => Qlt_bool b v) (fun a b => (b <= a)%Q)) with (col := col)
    as [[E H] | (j & m & E & H)].
  - intros a b c H1 H2. eapply Qle_trans; eassumption.
  - intros a b. apply Qle_total.
  - intros v b. apply Qlt_bool_true.
  - intros v b. apply Qlt_bool_false.
  - rewrite E. cbn. eauto.
  - rewrite E. cbn. eauto.
Qed.

Lemma dropna_nil_no_number col k v :
  dropna col = [] -> nth_error col k <> Some (Some v).
Proof.
  revert k. induction col as [|[x|] t IH]; intros k H; cbn in H.
  - now destruct k.
  - discriminate.
  - destruct k as [|k]; cbn; [discriminate | now apply IH].
Qed.

Lemma nth_error_fid df k v :
  nth_error (map fid df) k = Some (Some v) <->
  exists r, nth_error df k = Some r /\ fid r = Some v.
Proof.
  rewrite nth_error_map. destruct (nth_error df k) as [r|]; cbn; split.
  - intros H. exists r. split; [reflexivity | now inversion H].
  - intros (r' & Hr & Hv). inversion Hr. subst r'. now rewrite Hv.
  - discriminate.
  - intros (r' & Hr & _). discriminate.
Qed.

Lemma text_report_ok cfg df pt i j best worst :
  idxmin (map fid df) = Some i -> nth_error df i = Some best ->
  idxmax (map fid df) = Some j -> nth_error df j = Some worst ->
  text_report cfg df pt =
  ([TTableTitle; TPivot pt; TSummaryTitle]
   ++ [TBest (steps best) (eta best) (fid best);
       TWorst (steps worst) (eta worst) (fid worst)]
   ++ TAvgEtaTitle :: map (fun e => TAvgEta e (mask_eta_mean df e)) (eta_list cfg)
   ++ TAvgStepsTitle :: map (fun s => TAvgSteps s (mask_steps_mean df s)) (steps_list cfg),
   None).
Proof.
  intros Hi Hb Hj Hw. unfold text_report, loc. now rewrite Hi, Hb, Hj, Hw.
Qed.

(** The first best and first worst rows of a frame with a score. *)
Lemma best_and_worst_exist df :
  ok_metrics df <> [] ->
  exists i j best worst mb mw,
    idxmin (map fid df) = Some i /\ nth_error df i = Some best /\ fid best = Some mb /\
    first_best Qle (map fid df) i mb /\
    idxmax (map fid df) = Some j /\ nth_error df j = Some worst /\ fid worst = Some mw /\
    first_best (fun a b => (b <= a)%Q) (map fid df) j mw.
Proof.
  intros Hne. unfold ok_metrics in Hne.
  destruct (idxmin_spec (map fid df)) as [[_ H] | (i & mb & Ei & Hi)]; [contradiction|].
  destruct (idxmax_spec (map fid df)) as [[_ H] | (j & mw & Ej & Hj)]; [contradiction|].
  destruct (proj1 (nth_error_fid df i mb) (proj1 Hi)) as (best & Hb & Hfb).
  destruct (proj1 (nth_error_fid df j mw) (proj1 Hj)) as (worst & Hw & Hfw).
  exists i, j, best, worst, mb, mw. repeat split; try assumption; apply Hi || apply Hj.
Qed.

Lemma ok_metrics_nonempty df r v : In r df -> fid r = Some v -> ok_metrics df <> [].
Proof.
  intros Hin Hv H. apply In_nth_error in Hin as [k Hk].
  apply (dropna_nil_no_number _ k v H). apply nth_error_fid. eauto.
Qed.

(** ** C4 *)

(** C4. In a frame with at least one ok row, the rows [idxmin] and [idxmax]
    select, which the text report prints as best and worst configuration,
    are ok rows; the best score is at most, and the worst score at least,
    every ok score; and an ok row whose score equals the best (the worst)
    score does not come before the selected row: of several rows sharing
    the extreme, the first in grid order is taken. *)
Theorem C4_best_and_worst_selection (cfg : Config) (df : DataFrame) (pivot_table : PivotTable) :
  (exists r v, In r df /\ fid r = Some v) ->
  exists i j best worst mb mw,
    idxmin (map fid df) = Some i /\ nth_error df i = Some best /\ fid best = Some mb /\
    idxmax (map fid df) = Some j /\ nth_error df j = Some worst /\ fid worst = Some mw /\
    (forall r v, In r df -> fid r = Some v -> (mb <= v)%Q /\ (v <= mw)%Q) /\
    (forall k r v, nth_error df k = Some r -> fid r = Some v -> (v == mb)%Q -> (i <= k)%nat) /\
    (forall k r v, nth_error df k = Some r -> fid r = Some v -> (v == mw)%Q -> (j <= k)%nat) /\
    exists items,
      text_report cfg df pivot_table = (items, None) /\
      In (TBest (steps best) (eta best) (Some mb)) items /\
      In (TWorst (steps worst) (eta worst) (Some mw)) items.
Proof.
  intros (r0 & v0 & Hin0 & Hv0).
  destruct (best_and_worst_exist df (ok_metrics_nonempty _ _ _ Hin0 Hv0))
    as (i & j & best & worst & mb & mw & Ei & Hb & Hfb & (_ & Hmin & Hfirst)
        & Ej & Hw & Hfw & (_ & Hmax & Hlast)).
  exists i, j, best, worst, mb, mw.
  repeat (split; [assumption|]).
  split; [|split; [|split]].
  - intros r v Hin Hv. apply In_nth_error in Hin as [k Hk].
    assert (Hc : nth_error (map fid df) k = Some (Some v)) by (apply nth_error_fid; eauto).
    split; [apply (Hmin k v Hc) | apply (Hmax k v Hc)].
  - intros k r v Hk Hv Heq.
    destruct (Nat.le_gt_cases i k) as [|Hlt]; [assumption|]. exfalso.
    apply (Hfirst k v Hlt); [apply nth_error_fid; eauto|].
    rewrite Heq. apply Qle_refl.
  - intros k r v Hk Hv Heq.
    destruct (Nat.le_gt_cases j k) as [|Hlt]; [assumption|]. exfalso.
    apply (Hlast k v Hlt); [apply nth_error_fid; eauto|].
    rewrite Heq. apply Qle_refl.
  - eexists. split; [eapply text_report_ok; eassumption|].
    rewrite Hfb, Hfw. split; cbn; auto 10.
Qed.

Lemma C4_scenario_witness :
  exists best worst,
    nth_error (sweep_rows scenario_config scenario_world) 0 = Some best /\
    nth_error (sweep_rows scenario_config scenario_world) 2 = Some worst /\
    idxmin (map fid (sweep_rows scenario_config scenario_world)) = Some 0%nat /\
    idxmax (map fid (sweep_rows scenario_config scenario_world)) = Some 2%nat /\
    forall r v, In r (sweep_rows scenario_config scenario_world) -> fid r = Some v ->
                (3 <= v)%Q /\ (v <= 4)%Q.
Proof.
  destruct (C4_best_and_worst_selection scenario_config
              (sweep_rows scenario_config scenario_world)
              {| columns := []; rows := [] |})
    as (i & j & best & worst & mb & mw & Ei & Hb & Hfb & Ej & Hw & Hfw & Hbound & _).
  - exists (mkRow 10 0 (Some 3%Q)), 3%Q. split; [left; reflexivity | reflexivity].
  - assert (Hi : i = 0%nat) by (vm_compute in Ei; congruence).
    assert (Hj : j = 2%nat) by (vm_compute in Ej; congruence).
    subst i j.
    assert (Hmb : mb = 3%Q) by (vm_compute in Hb; inversion Hb; subst best; cbn in Hfb; congruence).
    assert (Hmw : mw = 4%Q) by (vm_compute in Hw; inversion Hw; subst worst; cbn in Hfw; congruence).
    subst mb mw.
    exists best, worst. repeat split; try assumption; eapply Hbound; eassumption.
Defined.

(** ** min, max, mean, std of a column *)

Lemma series_count_dropna col : series_count col = List.length (dropna col).
Proof.
  unfold series_count. induction col as [|[v|] t IH]; cbn; [reflexivity | now rewrite IH | exact IH].
Qed.

Lemma fold_add_cell col : forall acc,
  (fold_left add_cell col acc == acc + Qsum (dropna col))%Q.
Proof.
  induction col as [|[v|] t IH]; intros acc;
    cbn [fold_left dropna Qsum fold_right add_cell].
  - ring.
  - rewrite IH. unfold Qsum. ring.
  - apply IH.
Qed.

Lemma series_sum_dropna col : (series_sum col == Qsum (dropna col))%Q.
Proof. unfold series_sum. rewrite fold_add_cell. ring. Qed.

Lemma fold_add_sqdev avg m col : (avg == m)%Q -> forall acc,
  (fold_left (add_sqdev avg) col acc ==
   acc + Qsum (map (fun x => (x - m) * (x - m)) (dropna col)))%Q.
Proof.
  intros Havg. induction col as [|[v|] t IH]; intros acc;
    cbn [fold_left dropna Qsum fold_right add_sqdev map].
  - ring.
  - rewrite IH, Havg. unfold Qsum. ring.
  - apply IH.
Qed.

Lemma series_mean_spec col : cell_eq (series_mean col) (mean_of (dropna col)).
Proof.
  unfold series_mean. rewrite series_count_dropna.
  assert (Hs := series_sum_dropna col).
  destruct (dropna col) as [|x l] eqn:E; cbn [List.length Nat.eqb mean_of cell_eq]; [exact I|].
  now rewrite Hs.
Qed.

Lemma series_var_spec col : cell_eq (series_var 1 col) (sample_variance (dropna col)).
Proof.
  unfold series_var, sample_variance. rewrite series_count_dropna.
  assert (Hs := series_sum_dropna col).
  destruct (dropna col) as [|x [|y l]] eqn:E; try exact I.
  replace (List.length (x :: y :: l) <=? 1)%nat with false by reflexivity.
  replace (List.length (x :: y :: l) <? 2)%nat with false by reflexivity.
  cbv zeta. unfold cell_eq.
  rewrite (fold_add_sqdev _ (Qsum (x :: y :: l) / Qnat (List.length (x :: y :: l)))%Q).
  - rewrite E, Qplus_0_l. reflexivity.
  - now rewrite Hs.
Qed.

Section NanPick.
Variable pick : cell -> cell -> cell.
Variable leb : Q -> Q -> bool.
Variable R : Q -> Q -> Prop.
Hypothesis pick_eq : forall a b,
  pick a b = match a, b with
             | None, _ => b
             | _, None => a
             | Some p, Some q => Some (if leb p q then p else q)
             end.
Hypothesis R_refl : forall a, R a a.
Hypothesis R_trans : forall a b c, R a b -> R b c -> R a c.
Hypothesis leb_true : forall p q, leb p q = true -> R p q.
Hypothesis leb_false : forall p q, leb p q = false -> R q p.

(** Folding [pick] over a column returns a number of the column (or the
    starting value) that is [R]-below all of them. *)
Lemma fold_pick col : forall acc,
  match fold_left pick col acc with
  | None => acc = None /\ dropna col = []
  | Some m =>
      (acc = Some m \/ In m (dropna col)) /\
      (forall x, In x (dropna col) -> R m x) /\
      (forall a, acc = Some a -> R m a)
  end.
Proof.
  induction col as [|[v|] t IH]; intros acc; cbn [fold_left dropna].
  - destruct acc as [m|]; [|now split].
    split; [now left|]. split; [intros x []|]. intros a Ha. inversion Ha. apply R_refl.
  - specialize (IH (pick acc (Some v))). rewrite pick_eq in *.
    destruct acc as [a|].
    + destruct (fold_left pick t _) as [m|]; [|destruct IH; discriminate].
      destruct IH as (Hin & Hall & Hacc).
      specialize (Hacc _ eq_refl).
      destruct (leb a v) eqn:E.
      * apply leb_true in E. split; [|split].
        -- destruct Hin as [Hin | Hin]; [now left | right; now right].
        -- intros x [<- | Hx]; [eauto | auto].
        -- intros a' Ha. inversion Ha. now subst.
      * apply leb_false in E. split; [|split].
        -- destruct Hin as [Hin | Hin]; [right; left; congruence | right; now right].
        -- intros x [<- | Hx]; [assumption | auto].
        -- intros a' Ha. inversion Ha. subst. eauto.
    + destruct (fold_left pick t _) as [m|]; [|destruct IH; discriminate].
      destruct IH as (Hin & Hall & Hacc). split; [|split].
      * destruct Hin as [Hin | Hin]; [right; left; congruence | right; now right].
      * intros x [<- | Hx]; [now apply Hacc | auto].
      * discriminate.
  - specialize (IH (pick acc None)). rewrite pick_eq in *.
    now destruct acc.
Qed.
End NanPick.

Lemma series_min_spec col :
  match series_min col with
  | None => dropna col = []
  | Some m => In m (dropna col) /\ forall x, In x (dropna col) -> (m <= x)%Q
  end.
Proof.
  unfold series_min.
  assert (H := fold_pick nan_min Qle_bool Qle (fun a b => eq_refl) Qle_refl Qle_trans).
  specialize (H (fun p q E => proj1 (Qle_bool_iff p q) E)).
  assert (Hf : forall p q, Qle_bool p q = false -> (q <= p)%Q).
  { intros p q E. destruct (Qle_total p q) as [Hpq|]; [|assumption].
    apply Qle_bool_iff in Hpq. congruence. }
  specialize (H Hf col None).
  destruct (fold_left nan_min col None) as [m|].
  - destruct H as ([H|H] & Hall & _); [discriminate | now split].
  - apply H.
Qed.

Lemma series_max_spec col :
  match series_max col with
  | None => dropna col = []
  | Some m => In m (dropna col) /\ forall x, In x (dropna col) -> (x <= m)%Q
  end.
Proof.
  unfold series_max.
  assert (H := fold_pick nan_max (fun p q => Qle_bool q p) (fun a b => (b <= a)%Q)
                 (fun a b => eq_refl) Qle_refl (fun a b c H1 H2 => Qle_trans _ _ _ H2 H1)).
  specialize (H (fun p q E => proj1 (Qle_bool_iff q p) E)).
  assert (Hf : forall p q, Qle_bool q p = false -> (p <= q)%Q).
  { intros p q E. destruct (Qle_total q p) as [Hpq|]; [|assumption].
    apply Qle_bool_iff in Hpq. congruence. }
  specialize (H Hf col None).
  destruct (fold_left nan_max col None) as [m|].
  - destruct H as ([H|H] & Hall & _); [discriminate | now split].
  - apply H.
Qed.

(** ** C8 *)

(** C8. The four numbers of the Summary sheet are taken over the scores of
    the ok rows and nothing else: Best is their least and Worst their
    greatest element, Mean their arithmetic mean, and Std the square root
    of their sample variance, the sum of squared deviations over [n - 1]
    (ddof = 1); Std is NaN exactly when fewer than two rows are ok (and
    Best, Worst, Mean exactly when none is). *)
Theorem C8_summary_over_ok_rows (df : DataFrame) :
  match best_fid (summary_of df) with
  | None => ok_metrics df = []
  | Some m => In m (ok_metrics df) /\ forall x, In x (ok_metrics df) -> (m <= x)%Q
  end /\
  match worst_fid (summary_of df) with
  | None => ok_metrics df = []
  | Some m => In m (ok_metrics df) /\ forall x, In x (ok_metrics df) -> (x <= m)%Q
  end /\
  cell_eq (mean_fid (summary_of df)) (mean_of (ok_metrics df)) /\
  match std_fid (summary_of df) with
  | StdNaN => (List.length (ok_metrics df) < 2)%nat
  | StdSqrt v =>
      (2 <= List.length (ok_metrics df))%nat /\
      cell_eq (Some v) (sample_variance (ok_metrics df))
  end.
Proof.
  unfold summary_of, ok_metrics. cbn [best_fid worst_fid mean_fid std_fid].
  split; [apply series_min_spec|]. split; [apply series_max_spec|].
  split; [apply series_mean_spec|].
  unfold series_std.
  assert (Hv := series_var_spec (map fid df)).
  assert (Hc := series_count_dropna (map fid df)).
  unfold series_var in *. rewrite Hc in *.
  destruct (List.length (dropna (map fid df)) <=? 1)%nat eqn:E.
  - apply Nat.leb_le in E. lia.
  - apply Nat.leb_gt in E. split; [lia | exact Hv].
Qed.

(** ** Sorted distinct labels *)

Section SortedLabelsFacts.
Context {A : Type} (cmp : A -> A -> comparison).
Context (eqv lt : A -> A -> Prop) (eqb : A -> A -> bool).
Context `{Heqv : Equivalence A eqv} `{Hlt : StrictOrder A lt}.
Context `{Hcompat : Proper _ (eqv ==> eqv ==> iff) lt}.
Hypothesis cmp_Eq : forall a b, cmp a b = Eq -> eqv a b.
Hypothesis cmp_Lt : forall a b, cmp a b = Lt -> lt a b.
Hypothesis cmp_Gt : forall a b, cmp a b = Gt -> lt b a.
Hypothesis eqb_eqv : forall a b, eqb a b = true <-> eqv a b.

Lemma lt_not_eqv a b : lt a b -> ~ eqv a b.
Proof.
  intros H E. rewrite E in H. exact (StrictOrder_Irreflexive _ H).
Qed.

Lemma lt_cmp a b : lt a b -> cmp a b = Lt.
Proof.
  intros H. destruct (cmp a b) eqn:E; [| reflexivity |].
  - apply cmp_Eq in E. now apply lt_not_eqv in H.
  - apply cmp_Gt in E. exfalso. exact (StrictOrder_Irreflexive _ (transitivity H E)).
Qed.

Lemma eqv_cmp a b : eqv a b -> cmp a b = Eq.
Proof.
  intros H. destruct (cmp a b) eqn:E; [reflexivity | |].
  - apply cmp_Lt in E. now apply lt_not_eqv in E.
  - apply cmp_Gt in E. apply lt_not_eqv in E. exfalso. apply E. now symmetry.
Qed.

Lemma insert_uniq_InA x l y :
  InA eqv y (insert_uniq cmp x l) <-> eqv y x \/ InA eqv y l.
Proof.
  induction l as [|a l IH]; cbn.
  - rewrite InA_cons, InA_nil. tauto.
  - destruct (cmp x a) eqn:E.
    + apply cmp_Eq in E. rewrite InA_cons. split; [tauto|].
      intros [H | H]; [left; now rewrite H | assumption].
    + rewrite !InA_cons. tauto.
    + rewrite !InA_cons, IH. tauto.
Qed.

Lemma insert_uniq_HdRel x l a :
  HdRel lt a l -> lt a x -> HdRel lt a (insert_uniq cmp x l).
Proof.
  intros H Hx. destruct l as [|b l]; cbn; [now constructor|].
  destruct (cmp x b); [assumption | now constructor |].
  constructor. now inversion H.
Qed.

Lemma insert_uniq_Sorted x l : Sorted lt l -> Sorted lt (insert_uniq cmp x l).
Proof.
  induction 1 as [|a l Hs IH Hd]; cbn; [repeat constructor|].
  destruct (cmp x a) eqn:E.
  - now constructor.
  - apply cmp_Lt in E. constructor; [now constructor | now constructor].
  - apply cmp_Gt in E. constructor; [exact IH | now apply insert_uniq_HdRel].
Qed.

Lemma sort_uniq_Sorted l : Sorted lt (sort_uniq cmp l).
Proof.
  induction l as [|x l IH]; cbn; [constructor | now apply insert_uniq_Sorted].
Qed.

Lemma sort_uniq_InA l y : InA eqv y (sort_uniq cmp l) <-> InA eqv y l.
Proof.
  induction l as [|x l IH]; cbn; [reflexivity|].
  now rewrite insert_uniq_InA, IH, InA_cons.
Qed.

Lemma insert_uniq_absorb x l :
  Sorted lt l -> InA eqv x l -> insert_uniq cmp x l = l.
Proof.
  induction 1 as [|a l Hs IH Hd]; intros Hin; [inversion Hin|].
  cbn. apply InA_cons in Hin as [Hin | Hin].
  - now rewrite (eqv_cmp _ _ Hin).
  - assert (Hax : lt a x) by (eapply SortA_InfA_InA; eauto).
    destruct (cmp x a) eqn:E.
    + apply cmp_Eq in E. apply lt_not_eqv in Hax. exfalso. apply Hax. now symmetry.
    + apply cmp_Lt in E. exfalso. exact (StrictOrder_Irreflexive _ (transitivity Hax E)).
    + now rewrite IH.
Qed.

Lemma fold_insert_absorb l L :
  Sorted lt L -> (forall x, In x l -> InA eqv x L) ->
  fold_right (insert_uniq cmp) L l = L.
Proof.
  intros HL. induction l as [|x l IH]; intros Hin; cbn; [reflexivity|].
  rewrite IH by (intros y Hy; apply Hin; now right).
  apply insert_uniq_absorb; [exact HL | apply Hin; now left].
Qed.

Lemma sort_uniq_fixes_sorted l : Sorted lt l -> sort_uniq cmp l = l.
Proof.
  induction 1 as [|a l Hs IH Hd]; cbn; [reflexivity|].
  fold (sort_uniq cmp l). rewrite IH.
  destruct Hd as [|b l Hab]; cbn; [reflexivity|].
  now rewrite (lt_cmp _ _ Hab).
Qed.

Lemma existsb_eqb_InA x l : existsb (eqb x) l = true <-> InA eqv x l.
Proof.
  rewrite existsb_exists, InA_alt. split; intros (y & H1 & H2); exists y.
  - split; [now apply eqb_eqv | assumption].
  - split; [assumption | now apply eqb_eqv].
Qed.

Lemma distinct_InA l y : InA eqv y (distinct eqb l) <-> InA eqv y l.
Proof.
  induction l as [|x l IH]; cbn; [reflexivity|].
  destruct (existsb (eqb x) l) eqn:E.
  - rewrite IH, InA_cons. split; [tauto|].
    intros [H | H]; [|assumption]. apply existsb_eqb_InA in E. now rewrite H.
  - now rewrite !InA_cons, IH.
Qed.

Lemma distinct_NoDupA l : NoDupA eqv (distinct eqb l).
Proof.
  induction l as [|x l IH]; cbn; [constructor|].
  destruct (existsb (eqb x) l) eqn:E; [exact IH|].
  constructor; [|exact IH].
  rewrite distinct_InA, <- existsb_eqb_InA. congruence.
Qed.

Lemma PermutationA_same_length (l1 l2 : list A) :
  PermutationA eqv l1 l2 -> List.length l1 = List.length l2.
Proof. induction 1; cbn; congruence. Qed.

(** As many labels as there are distinct values. *)
Lemma sort_uniq_length l :
  List.length (sort_uniq cmp l) = List.length (distinct eqb l).
Proof.
  apply PermutationA_same_length, NoDupA_equivlistA_PermutationA.
  - exact Heqv.
  - eapply SortA_NoDupA; eauto. apply sort_uniq_Sorted.
  - apply distinct_NoDupA.
  - intros y. now rewrite sort_uniq_InA, distinct_InA.
Qed.
End SortedLabelsFacts.

(** *** Labels that are integers, labels that are rationals *)

#[local] Instance Qlt_StrictOrder : StrictOrder Qlt.
Proof. split; [exact Qlt_irrefl | exact Qlt_trans]. Qed.

Lemma Qcompare_Eq a b : (a ?= b)%Q = Eq -> (a == b)%Q.
Proof. apply Qeq_alt. Qed.
Lemma Qcompare_Lt a b : (a ?= b)%Q = Lt -> (a < b)%Q.
Proof. apply Qlt_alt. Qed.
Lemma Qcompare_Gt a b : (a ?= b)%Q = Gt -> (b < a)%Q.
Proof. apply Qgt_alt. Qed.
Lemma Zcompare_Gt a b : (a ?= b) = Gt -> b < a.
Proof. intros H. apply Z.compare_gt_iff in H. lia. Qed.
Lemma Zcompare_Lt a b : (a ?= b) = Lt -> a < b.
Proof. apply Z.compare_lt_iff. Qed.

Lemma Qeq_bool_sym_iff a b : Qeq_bool a b = true <-> (a == b)%Q.
Proof. apply Qeq_bool_iff. Qed.

Lemma Qeq_bool_compat x a b : (a == b)%Q -> Qeq_bool x a = Qeq_bool x b.
Proof.
  intros H. destruct (Qeq_bool x b) eqn:E.
  - apply Qeq_bool_iff. apply Qeq_bool_iff in E. now rewrite H.
  - destruct (Qeq_bool x a) eqn:E'; [|reflexivity].
    apply Qeq_bool_iff in E'. rewrite H in E'. apply Qeq_bool_iff in E'. congruence.
Qed.

Lemma InA_eq_In {A} (x : A) l : InA eq x l <-> In x l.
Proof.
  rewrite InA_alt. split; [intros (y & -> & H); exact H | intros H; eauto].
Qed.

Ltac label_side :=
  first [ exact Z.compare_eq | exact Zcompare_Lt | exact Zcompare_Gt | exact Z.eqb_eq
        | exact Qcompare_Eq | exact Qcompare_Lt | exact Qcompare_Gt | exact Qeq_bool_iff
        | typeclasses eauto ].

Lemma steps_labels_Sorted l : Sorted Z.lt (sort_uniq Z.compare l).
Proof. apply sort_uniq_Sorted; label_side. Qed.

Lemma steps_labels_In l s : In s (sort_uniq Z.compare l) <-> In s l.
Proof.
  rewrite <- !InA_eq_In. apply sort_uniq_InA; label_side.
Qed.

Lemma steps_labels_length l :
  List.length (sort_uniq Z.compare l) = List.length (distinct Z.eqb l).
Proof. apply sort_uniq_length with (eqv := eq) (lt := Z.lt); label_side. Qed.

Lemma eta_labels_Sorted l : Sorted Qlt (sort_uniq Qcompare l).
Proof. apply sort_uniq_Sorted; label_side. Qed.

Lemma eta_labels_InA l e : InA Qeq e (sort_uniq Qcompare l) <-> InA Qeq e l.
Proof. apply sort_uniq_InA; label_side. Qed.

Lemma eta_labels_length l :
  List.length (sort_uniq Qcompare l) = List.length (distinct Qeq_bool l).
Proof. apply sort_uniq_length with (eqv := Qeq) (lt := Qlt); label_side. Qed.

Lemma eta_labels_fix l : Sorted Qlt l -> sort_uniq Qcompare l = l.
Proof. apply sort_uniq_fixes_sorted with (eqv := Qeq); label_side. Qed.

Lemma eta_labels_absorb l L :
  Sorted Qlt L -> (forall x, In x l -> InA Qeq x L) ->
  fold_right (insert_uniq Qcompare) L l = L.
Proof. apply fold_insert_absorb; label_side. Qed.

(** ** The pivoted frame *)

Lemma sort_index_fix l :
  Sorted Z.lt (map fst l) -> fold_right insert_row [] l = l.
Proof.
  induction l as [|a l IH]; cbn; intros H; [reflexivity|].
  inversion H as [|? ? Hs Hd]; subst. rewrite (IH Hs).
  destruct l as [|b l]; cbn; [reflexivity|].
  inversion Hd; subst. now replace (fst a <=? fst b) with true by (symmetry; apply Z.leb_le; lia).
Qed.

Lemma pivot_done_inv df p :
  pivot df = Done p ->
  df <> [] /\ has_duplicates df = false /\
  p = {| columns := sort_uniq Qcompare (map eta df);
         rows := map (fun s => (s, map (cell_at df s) (sort_uniq Qcompare (map eta df))))
                     (sort_uniq Z.compare (map steps df)) |}.
Proof.
  unfold pivot. destruct df as [|r df]; [discriminate|].
  destruct (has_duplicates (r :: df)); [discriminate|].
  intros H. inversion H. repeat split. discriminate.
Qed.

Lemma row_labels {B} (g : Z -> B) idx : map fst (map (fun s => (s, g s)) idx) = idx.
Proof. rewrite map_map. cbn. apply map_id. Qed.

Lemma find_row {B} (g : Z -> B) idx s :
  In s idx -> find (fun r => fst r =? s) (map (fun s' => (s', g s')) idx) = Some (s, g s).
Proof.
  induction idx as [|a idx IH]; cbn; [intros []|].
  intros H. destruct (Z.eqb_spec a s) as [-> | Hne]; [reflexivity|].
  apply IH. destruct H; [contradiction | assumption].
Qed.

Lemma index_of_spec e l :
  InA Qeq e l ->
  exists i e', index_of e l = Some i /\ nth_error l i = Some e' /\ (e' == e)%Q.
Proof.
  induction l as [|x l IH]; intros H; [inversion H|]. cbn.
  destruct (Qeq_bool x e) eqn:E.
  - exists 0%nat, x. repeat split. now apply Qeq_bool_iff.
  - apply InA_cons in H as [H | H].
    + symmetry in H. apply Qeq_bool_iff in H. congruence.
    + destruct (IH H) as (i & e' & Hi & Hn & He). exists (S i), e'.
      rewrite Hi. now repeat split.
Qed.

Lemma find_same {A} (f g : A -> bool) l :
  (forall x, f x = g x) -> find f l = find g l.
Proof.
  intros H. induction l as [|a l IH]; cbn; [reflexivity|]. now rewrite H, IH.
Qed.

Lemma cell_at_compat df s e e' : (e' == e)%Q -> cell_at df s e' = cell_at df s e.
Proof.
  intros H. unfold cell_at.
  rewrite (find_same (at_point s e') (at_point s e)); [reflexivity|].
  intros r. unfold at_point. now rewrite (Qeq_bool_compat _ _ _ H).
Qed.

Lemma at_point_same_point a r :
  at_point (steps r) (eta r) a = true -> same_point a r = true.
Proof. trivial. Qed.

Lemma at_point_self r : at_point (steps r) (eta r) r = true.
Proof.
  unfold at_point. rewrite Z.eqb_refl. cbn. apply Qeq_bool_iff. reflexivity.
Qed.

(** Without duplicated points, the cell of a row's own point is its own
    score. *)
Lemma cell_at_own df r :
  has_duplicates df = false -> In r df -> cell_at df (steps r) (eta r) = fid r.
Proof.
  unfold cell_at. induction df as [|a df IH]; cbn; [intros _ []|].
  intros Hd Hin. apply orb_false_iff in Hd as [Hex Hd].
  destruct (at_point (steps r) (eta r) a) eqn:E.
  - destruct Hin as [-> | Hin]; [reflexivity|].
    exfalso. assert (Hc : existsb (same_point a) df = true).
    { apply existsb_exists. exists r. split; [assumption|].
      unfold same_point. unfold at_point in E.
      apply andb_true_iff in E as [E1 E2]. apply Z.eqb_eq in E1.
      rewrite E1, Z.eqb_refl. cbn. exact E2. }
    congruence.
  - destruct Hin as [-> | Hin]; [rewrite at_point_self in E; discriminate|].
    now apply IH.
Qed.

Lemma In_InA_Qeq (e : Q) l : In e l -> InA Qeq e l.
Proof. intros H. apply InA_alt. exists e. split; [reflexivity | assumption]. Qed.

(** The eta column of the sweep's rows: the eta list, once per steps
    value. *)
Lemma eta_of_sweep_rows cfg w ss :
  map eta (flat_map (fun s => map (point_row cfg w s) (eta_list cfg)) ss) =
  flat_map (fun _ => eta_list cfg) ss.
Proof.
  induction ss as [|s ss IH]; cbn; [reflexivity|].
  rewrite map_app, IH, map_map. cbn. now rewrite map_id.
Qed.

Lemma steps_of_sweep_rows cfg w ss :
  map steps (flat_map (fun s => map (point_row cfg w s) (eta_list cfg)) ss) =
  flat_map (fun s => map (fun _ => s) (eta_list cfg)) ss.
Proof.
  induction ss as [|s ss IH]; cbn; [reflexivity|].
  now rewrite map_app, IH, map_map.
Qed.

Lemma eta_labels_of_copies es ss :
  Sorted Qlt es -> ss <> [] ->
  sort_uniq Qcompare (flat_map (fun _ : Z => es) ss) = es.
Proof.
  intros Hes. induction ss as [|s ss IH]; [contradiction|]. intros _.
  cbn. unfold sort_uniq. rewrite fold_right_app. fold (sort_uniq Qcompare (flat_map (fun _ : Z => es) ss)).
  destruct ss as [|s' ss].
  - cbn. now apply eta_labels_fix.
  - rewrite IH by discriminate.
    apply eta_labels_absorb; [exact Hes | intros x Hx; now apply In_InA_Qeq].
Qed.

Lemma rows_have_all_cells {B} (g : Z -> Q -> B) cols idx :
  Forall (fun r => List.length (snd r) = List.length cols)
         (map (fun s => (s, map (g s) cols)) idx).
Proof.
  apply Forall_forall. intros r H. apply in_map_iff in H as (s & <- & _).
  cbn. apply length_map.
Qed.

(** ** C6 *)

(** C6, as the claim states it, fails: with eta list [1.0, 0] the columns
    of the table written to the CSV file are 0, 1.0, not in input order. *)
Lemma C6_columns_are_sorted_not_in_input_order :
  eta_list unsorted_config = [1; 0]%Q /\
  exists pt,
    In (CsvSaved output_csv pt) (fst (main unsorted_config world_all_ok)) /\
    columns pt = [0; 1]%Q /\
    columns pt <> eta_list unsorted_config.
Proof.
  split; [reflexivity|]. eexists. split.
  - vm_compute. repeat (first [left; reflexivity | right]).
  - split; [reflexivity | discriminate].
Qed.

(** C6, amended. For every frame [pivot] accepts (one that is not empty
    and repeats no configuration point), the table after [sort_index] has
    its row labels, the steps values, strictly ascending and its column
    labels, the eta values, strictly ascending too, whatever the order of
    the eta list; it has as many rows as there are distinct steps values
    and as many columns as there are distinct eta values, every row
    having one cell per column; and the cell at a row's point holds that
    row's [fid]: the score when the row is ok, NaN (never zero) when it is
    not.  The columns are in input order when the eta list is strictly
    ascending. *)
Theorem C6_pivot_table_shape (df : DataFrame) (p : PivotTable) :
  pivot df = Done p ->
  StronglySorted Z.lt (map fst (rows (sort_index p))) /\
  StronglySorted Qlt (columns (sort_index p)) /\
  List.length (rows (sort_index p)) = List.length (distinct Z.eqb (map steps df)) /\
  List.length (columns (sort_index p)) = List.length (distinct Qeq_bool (map eta df)) /\
  Forall (fun r => List.length (snd r) = List.length (columns (sort_index p)))
         (rows (sort_index p)) /\
  (forall r, In r df -> pivot_cell (sort_index p) (steps r) (eta r) = Some (fid r)) /\
  (forall cfg w, df = sweep_rows cfg w -> StronglySorted Qlt (eta_list cfg) ->
     columns (sort_index p) = eta_list cfg).
Proof.
  intros H. apply pivot_done_inv in H as (Hne & Hdup & ->).
  set (cols := sort_uniq Qcompare (map eta df)).
  set (idx := sort_uniq Z.compare (map steps df)).
  assert (Hfix : sort_index {| columns := cols;
                               rows := map (fun s => (s, map (cell_at df s) cols)) idx |}
                 = {| columns := cols;
                      rows := map (fun s => (s, map (cell_at df s) cols)) idx |}).
  { unfold sort_index. cbn [columns rows]. f_equal.
    apply sort_index_fix. rewrite row_labels. apply steps_labels_Sorted. }
  rewrite Hfix. cbn [columns rows].
  split; [|split; [|split; [|split; [|split; [|split]]]]].
  - rewrite row_labels. apply Sorted_StronglySorted; [exact Z.lt_trans | apply steps_labels_Sorted].
  - apply Sorted_StronglySorted; [exact Qlt_trans | apply eta_labels_Sorted].
  - rewrite length_map. apply steps_labels_length.
  - apply eta_labels_length.
  - apply rows_have_all_cells.
  - intros r Hr. unfold pivot_cell. cbn [columns rows].
    rewrite find_row by (apply steps_labels_In, in_map, Hr).
    destruct (index_of_spec (eta r) cols) as (i & e' & Hi & Hn & He).
    { apply eta_labels_InA, In_InA_Qeq, in_map, Hr. }
    rewrite Hi, nth_error_map, Hn. cbn.
    now rewrite (cell_at_compat _ _ _ _ He), (cell_at_own _ _ Hdup Hr).
  - intros cfg w -> Hsorted. unfold cols, sweep_rows. rewrite eta_of_sweep_rows.
    apply eta_labels_of_copies; [now apply StronglySorted_Sorted|].
    intros Hnil. apply Hne. unfold sweep_rows. now rewrite Hnil.
Qed.

Lemma C6_scenario_witness :
  exists p,
    pivot (sweep_rows scenario_config scenario_world) = Done p /\
    columns (sort_index p) = [0; 1]%Q /\
    map fst (rows (sort_index p)) = [10; 20] /\
    pivot_cell (sort_index p) 10 0 = Some (Some 3%Q) /\
    pivot_cell (sort_index p) 10 1 = Some None /\
    StronglySorted Qlt (columns (sort_index p)).
Proof.
  eexists. split; [reflexivity|].
  split; [reflexivity|]. split; [reflexivity|]. split; [reflexivity|]. split; [reflexivity|].
  exact (proj1 (proj2 (C6_pivot_table_shape (sweep_rows scenario_config scenario_world) _ eq_refl))).
Defined.

Lemma NoDupA_no_duplicates df :
  NoDupA config_eq (map config df) -> has_duplicates df = false.
Proof.
  induction df as [|r df IH]; cbn; [reflexivity|].
  intros H. inversion H as [|? ? Hin Hnd]; subst.
  rewrite (IH Hnd), orb_false_r.
  destruct (existsb (same_point r) df) eqn:E; [|reflexivity].
  exfalso. apply Hin. apply existsb_exists in E as (x & Hx & Hsame).
  apply InA_alt. exists (config x). split; [|now apply in_map].
  unfold same_point in Hsame. apply andb_true_iff in Hsame as [H1 H2].
  split; cbn; [now apply Z.eqb_eq | now apply Qeq_bool_iff].
Qed.

(** [pivot] accepts what a sweep over two non-empty lists without
    repetition produces. *)
Lemma pivot_accepts_sweep cfg w :
  steps_list cfg <> [] -> eta_list cfg <> [] ->
  NoDup (steps_list cfg) -> NoDupA Qeq (eta_list cfg) ->
  exists p, pivot (sweep_rows cfg w) = Done p.
Proof.
  intros Hs He Hnd Hnde. unfold pivot.
  rewrite NoDupA_no_duplicates
    by (rewrite config_sweep_rows; now apply NoDupA_grid).
  destruct (sweep_rows cfg w) eqn:E; [|eauto].
  exfalso. apply (f_equal (@List.length Row)) in E.
  rewrite <- (length_map config), config_sweep_rows, length_grid in E. cbn in E.
  destruct (steps_list cfg); [contradiction|]. destruct (eta_list cfg); [contradiction|].
  discriminate.
Qed.

(** ** Group averages *)

Lemma txt_eta_avgs_app a b : txt_eta_avgs (a ++ b) = txt_eta_avgs a ++ txt_eta_avgs b.
Proof. apply flat_map_app. Qed.

Lemma txt_steps_avgs_app a b : txt_steps_avgs (a ++ b) = txt_steps_avgs a ++ txt_steps_avgs b.
Proof. apply flat_map_app. Qed.

Lemma txt_eta_avgs_eta (f : Q -> cell) l :
  txt_eta_avgs (map (fun e => TAvgEta e (f e)) l) = map (fun e => (e, f e)) l.
Proof. induction l as [|e l IH]; cbn; [reflexivity | now f_equal]. Qed.

Lemma txt_eta_avgs_steps (f : Z -> cell) l :
  txt_eta_avgs (map (fun s => TAvgSteps s (f s)) l) = [].
Proof. induction l as [|e l IH]; cbn; [reflexivity | exact IH]. Qed.

Lemma txt_steps_avgs_steps (f : Z -> cell) l :
  txt_steps_avgs (map (fun s => TAvgSteps s (f s)) l) = map (fun s => (s, f s)) l.
Proof. induction l as [|e l IH]; cbn; [reflexivity | now f_equal]. Qed.

Lemma txt_steps_avgs_eta (f : Q -> cell) l :
  txt_steps_avgs (map (fun e => TAvgEta e (f e)) l) = [].
Proof. induction l as [|e l IH]; cbn; [reflexivity | exact IH]. Qed.

Lemma text_report_done_inv cfg df pt items :
  text_report cfg df pt = (items, None) ->
  exists best worst,
    loc df (idxmin (map fid df)) = Done best /\
    loc df (idxmax (map fid df)) = Done worst /\
    items =
      [TTableTitle; TPivot pt; TSummaryTitle]
      ++ [TBest (steps best) (eta best) (fid best);
          TWorst (steps worst) (eta worst) (fid worst)]
      ++ TAvgEtaTitle :: map (fun e => TAvgEta e (mask_eta_mean df e)) (eta_list cfg)
      ++ TAvgStepsTitle :: map (fun s => TAvgSteps s (mask_steps_mean df s)) (steps_list cfg).
Proof.
  unfold text_report.
  destruct (loc df (idxmin (map fid df))) as [best|]; [|discriminate].
  destruct (loc df (idxmax (map fid df))) as [worst|]; [|discriminate].
  intros H. inversion H. eauto.
Qed.

Lemma txt_eta_avgs_cons it l :
  txt_eta_avgs (it :: l) =
  match it with TAvgEta e a => [(e, a)] | _ => [] end ++ txt_eta_avgs l.
Proof. reflexivity. Qed.

Lemma txt_steps_avgs_cons it l :
  txt_steps_avgs (it :: l) =
  match it with TAvgSteps s a => [(s, a)] | _ => [] end ++ txt_steps_avgs l.
Proof. reflexivity. Qed.

Lemma text_report_avgs cfg df pt items :
  text_report cfg df pt = (items, None) ->
  txt_eta_avgs items = map (fun e => (e, mask_eta_mean df e)) (eta_list cfg) /\
  txt_steps_avgs items = map (fun s => (s, mask_steps_mean df s)) (steps_list cfg).
Proof.
  intros H. apply text_report_done_inv in H as (best & worst & _ & _ & ->).
  cbn [Datatypes.app]. split.
  - rewrite !txt_eta_avgs_cons. cbn [Datatypes.app].
    rewrite txt_eta_avgs_app, txt_eta_avgs_cons, txt_eta_avgs_eta, txt_eta_avgs_steps.
    cbn [Datatypes.app]. apply app_nil_r.
  - rewrite !txt_steps_avgs_cons. cbn [Datatypes.app].
    rewrite txt_steps_avgs_app, txt_steps_avgs_cons, txt_steps_avgs_eta, txt_steps_avgs_steps.
    reflexivity.
Qed.

Lemma group_mean_spec (sel : Row -> bool) df :
  cell_eq (series_mean (map fid (filter sel df))) (mean_of (ok_metrics (filter sel df))).
Proof. apply series_mean_spec. Qed.

(** With exact numbers the compensation of the Kahan summation stays zero
    and the running sum is the sum. *)
Lemma fold_kahan_step col : forall s c,
  (c == 0)%Q ->
  (fst (fold_left kahan_step col (s, c)) == s + Qsum (dropna col))%Q /\
  (snd (fold_left kahan_step col (s, c)) == 0)%Q.
Proof.
  induction col as [|[v|] t IH]; intros s c Hc; cbn [fold_left dropna Qsum fold_right kahan_step].
  - cbn [fst snd]. split; [ring | exact Hc].
  - cbn [fst snd].
    destruct (IH (s + (v - c))%Q (s + (v - c) - s - (v - c))%Q) as [H1 H2]; [ring|].
    split; [|exact H2]. rewrite H1, Hc. unfold Qsum. ring.
  - now apply IH.
Qed.

Lemma group_sum_dropna col : (group_sum col == Qsum (dropna col))%Q.
Proof.
  unfold group_sum. destruct (fold_kahan_step col 0 0) as [H _]; [reflexivity|].
  rewrite H. ring.
Qed.

Lemma group_mean_exact col : cell_eq (group_mean col) (mean_of (dropna col)).
Proof.
  unfold group_mean. rewrite series_count_dropna.
  assert (Hs := group_sum_dropna col).
  destruct (dropna col) as [|x l] eqn:E; cbn [List.length Nat.eqb mean_of cell_eq]; [exact I|].
  now rewrite Hs.
Qed.

Lemma groupby_mean_spec (sel : Row -> bool) df :
  cell_eq (group_mean (map fid (filter sel df))) (mean_of (ok_metrics (filter sel df))).
Proof. apply group_mean_exact. Qed.

Lemma mean_of_None l : mean_of l = None <-> l = [].
Proof. destruct l; cbn; split; intros H; congruence. Qed.

(** ** C7 *)

(** C7, as the claim states it, fails: with eta list [1.0, 0] the lines of
    the Avg_by_Eta sheet are keyed 0, 1.0, not in input order. *)
Lemma C7_workbook_averages_are_sorted_not_in_input_order :
  eta_list unsorted_config = [1; 0]%Q /\
  exists wb,
    In (ExcelSaved output_excel wb) (fst (main unsorted_config world_all_ok)) /\
    map fst (Avg_by_Eta wb) = [0; 1]%Q /\
    map fst (Avg_by_Eta wb) <> eta_list unsorted_config.
Proof.
  split; [reflexivity|]. eexists. split.
  - vm_compute. repeat (first [left; reflexivity | right]).
  - split; [reflexivity | discriminate].
Qed.

(** C7, amended. The averages per eta and per steps are each the
    arithmetic mean of exactly the scores of the ok rows with that eta
    (that steps value), and NaN, not an error, when no such row is ok.  In
    the text report they follow the input order of the eta list and of the
    steps list; in the sheets Avg_by_Eta and Avg_by_Steps of the workbook
    they are keyed by the distinct values in ascending order. *)
Theorem C7_group_averages (cfg : Config) (df : DataFrame) (pivot_table : PivotTable) :
  (forall items, text_report cfg df pivot_table = (items, None) ->
     map fst (txt_eta_avgs items) = eta_list cfg /\
     map fst (txt_steps_avgs items) = steps_list cfg /\
     (forall e a, In (e, a) (txt_eta_avgs items) ->
        cell_eq a (mean_of (ok_metrics (filter (eta_is e) df)))) /\
     (forall s a, In (s, a) (txt_steps_avgs items) ->
        cell_eq a (mean_of (ok_metrics (filter (steps_is s) df))))) /\
  StronglySorted Qlt (map fst (Avg_by_Eta (build_workbook df pivot_table))) /\
  StronglySorted Z.lt (map fst (Avg_by_Steps (build_workbook df pivot_table))) /\
  (forall e, InA Qeq e (map fst (Avg_by_Eta (build_workbook df pivot_table)))
             <-> InA Qeq e (map eta df)) /\
  (forall s, In s (map fst (Avg_by_Steps (build_workbook df pivot_table)))
             <-> In s (map steps df)) /\
  (forall e a, In (e, a) (Avg_by_Eta (build_workbook df pivot_table)) ->
     cell_eq a (mean_of (ok_metrics (filter (eta_is e) df)))) /\
  (forall s a, In (s, a) (Avg_by_Steps (build_workbook df pivot_table)) ->
     cell_eq a (mean_of (ok_metrics (filter (steps_is s) df)))) /\
  (forall l, mean_of l = None <-> l = []).
Proof.
  assert (Hke : map fst (groupby_eta_mean df) = sort_uniq Qcompare (map eta df)).
  { unfold groupby_eta_mean. rewrite map_map. apply map_id. }
  assert (Hks : map fst (groupby_steps_mean df) = sort_uniq Z.compare (map steps df)).
  { unfold groupby_steps_mean. rewrite map_map. apply map_id. }
  cbn [build_workbook Avg_by_Eta Avg_by_Steps]. rewrite Hke, Hks.
  split; [|split; [|split; [|split; [|split; [|split; [|split]]]]]].
  - intros items H. apply text_report_avgs in H as [-> ->].
    rewrite !map_map. cbn [fst]. rewrite !map_id.
    repeat split.
    + intros e a Hin. apply in_map_iff in Hin as (e' & Heq & _).
      inversion Heq. subst. apply group_mean_spec.
    + intros s a Hin. apply in_map_iff in Hin as (s' & Heq & _).
      inversion Heq. subst. apply group_mean_spec.
  - apply Sorted_StronglySorted; [exact Qlt_trans | apply eta_labels_Sorted].
  - apply Sorted_StronglySorted; [exact Z.lt_trans | apply steps_labels_Sorted].
  - intros e. apply eta_labels_InA.
  - intros s. apply steps_labels_In.
  - intros e a Hin. apply in_map_iff in Hin as (e' & Heq & _).
    inversion Heq. subst. apply groupby_mean_spec.
  - intros s a Hin. apply in_map_iff in Hin as (s' & Heq & _).
    inversion Heq. subst. apply groupby_mean_spec.
  - apply mean_of_None.
Qed.

Lemma C7_scenario_witness :
  exists items,
    text_report unsorted_config (sweep_rows unsorted_config world_all_ok)
                {| columns := []; rows := [] |} = (items, None) /\
    map fst (txt_eta_avgs items) = [1; 0]%Q.
Proof.
  eexists. split; [reflexivity|].
  exact (proj1 (proj1 (C7_group_averages unsorted_config
                         (sweep_rows unsorted_config world_all_ok)
                         {| columns := []; rows := [] |}) _ eq_refl)).
Defined.

(** ** What a run writes *)

Lemma sweep_no_artifact cfg w :
  existsb is_artifact (fst (sweep cfg w)) = false.
Proof.
  destruct (steps_list cfg) as [|s0 ss] eqn:Hs.
  - unfold sweep. now rewrite Hs.
  - destruct (first_failure in_table (eta_list cfg)) as [Hok | (pre & x & post & He & Hpre & Hx)].
    + rewrite (sweep_ok _ _ Hok). apply grid_trace_no_artifact.
    + rewrite (sweep_fail _ _ _ _ _ _ _ Hs He Hpre Hx). apply row_trace_no_artifact.
Qed.

Lemma existsb_false_In {A} (f : A -> bool) l x :
  existsb f l = false -> In x l -> f x = false.
Proof.
  intros H Hin. destruct (f x) eqn:E; [|reflexivity].
  assert (existsb f l = true) by (apply existsb_exists; eauto). congruence.
Qed.

(** ** [idxmin] and [min] point at the same number *)

Lemma arg_best_position better col : forall i best j m,
  arg_best better col i best = Some (j, m) ->
  best = Some (j, m) \/ ((i <= j)%nat /\ nth_error col (j - i) = Some (Some m)).
Proof.
  induction col as [|[v|] t IH]; intros i best j m H; cbn in H.
  - now left.
  - assert (Hnew : forall b, arg_best better t (S i) b = Some (j, m) ->
                             b = Some (i, v) \/ b = best ->
                             best = Some (j, m) \/
                             ((i <= j)%nat /\ nth_error (Some v :: t) (j - i) = Some (Some m))).
    { intros b Hb Hor. destruct (IH _ _ _ _ Hb) as [Heq | [Hle Hn]].
      - destruct Hor as [-> | ->]; [|now left].
        inversion Heq; subst. right. split; [lia|]. now rewrite Nat.sub_diag.
      - right. split; [lia|].
        replace (j - i)%nat with (S (j - S i)) by lia. exact Hn. }
    destruct best as [[jb b]|].
    + destruct (better v b); eapply Hnew; eauto.
    + eapply Hnew; eauto.
  - destruct (IH _ _ _ _ H) as [Heq | [Hle Hn]]; [now left|].
    right. split; [lia|]. replace (j - i)%nat with (S (j - S i)) by lia. exact Hn.
Qed.

Lemma arg_best_fold_min col : forall i best,
  option_map snd (arg_best Qlt_bool col i best) = fold_left nan_min col (option_map snd best).
Proof.
  induction col as [|[v|] t IH]; intros i best; cbn [arg_best fold_left].
  - reflexivity.
  - destruct best as [[jb b]|]; cbn [option_map snd nan_min].
    + unfold Qlt_bool. destruct (Qle_bool b v); cbn [negb]; now rewrite IH.
    + now rewrite IH.
  - rewrite IH. now destruct best as [[jb b]|].
Qed.

Lemma arg_best_fold_max col : forall i best,
  option_map snd (arg_best (fun v b => Qlt_bool b v) col i best) =
  fold_left nan_max col (option_map snd best).
Proof.
  induction col as [|[v|] t IH]; intros i best; cbn [arg_best fold_left].
  - reflexivity.
  - destruct best as [[jb b]|]; cbn [option_map snd nan_max].
    + unfold Qlt_bool. destruct (Qle_bool v b); cbn [negb]; now rewrite IH.
    + now rewrite IH.
  - rewrite IH. now destruct best as [[jb b]|].
Qed.

Lemma loc_arg_best better df r :
  loc df (option_map fst (arg_best better (map fid df) 0 None)) = Done r ->
  fid r = option_map snd (arg_best better (map fid df) 0 None).
Proof.
  destruct (arg_best better (map fid df) 0 None) as [[j m]|] eqn:E; cbn; [|discriminate].
  destruct (nth_error df j) as [r'|] eqn:Hn; [|discriminate].
  intros H. inversion H. subst r'.
  apply arg_best_position in E as [E | [_ E]]; [discriminate|].
  rewrite Nat.sub_0_r, nth_error_map, Hn in E. cbn in E. congruence.
Qed.

Lemma loc_idxmin_is_min df r :
  loc df (idxmin (map fid df)) = Done r -> fid r = series_min (map fid df).
Proof.
  intros H. apply loc_arg_best in H. now rewrite arg_best_fold_min in H.
Qed.

Lemma loc_idxmax_is_max df r :
  loc df (idxmax (map fid df)) = Done r -> fid r = series_max (map fid df).
Proof.
  intros H. apply loc_arg_best in H. now rewrite arg_best_fold_max in H.
Qed.

Lemma sweep_rows_nonempty cfg w :
  sweep_rows cfg w <> [] -> steps_list cfg <> [] /\ eta_list cfg <> [].
Proof.
  unfold sweep_rows. intros H. split; intros Hnil; apply H; rewrite Hnil; [reflexivity|].
  clear. induction (steps_list cfg) as [|s ss IH]; [reflexivity | exact IH].
Qed.

Lemma In_eta_sweep_rows cfg w e :
  steps_list cfg <> [] -> In e (eta_list cfg) -> In e (map eta (sweep_rows cfg w)).
Proof.
  unfold sweep_rows. rewrite eta_of_sweep_rows.
  destruct (steps_list cfg) as [|s ss]; [contradiction|].
  intros _ H. cbn. apply in_or_app. now left.
Qed.

Lemma In_steps_sweep_rows cfg w s :
  eta_list cfg <> [] -> In s (steps_list cfg) -> In s (map steps (sweep_rows cfg w)).
Proof.
  unfold sweep_rows. rewrite steps_of_sweep_rows. intros He Hs.
  apply in_flat_map. exists s. split; [exact Hs|].
  destruct (eta_list cfg) as [|e es]; [contradiction|]. now left.
Qed.

Lemma filter_eta_is_compat df e e' :
  (e' == e)%Q -> filter (eta_is e') df = filter (eta_is e) df.
Proof.
  intros H. apply filter_ext. intros r. unfold eta_is. now apply Qeq_bool_compat.
Qed.

Lemma C8_scenario_witness :
  best_fid (summary_of (sweep_rows scenario_config scenario_world)) = Some 3%Q /\
  worst_fid (summary_of (sweep_rows scenario_config scenario_world)) = Some 4%Q /\
  ok_metrics (sweep_rows scenario_config scenario_world) = [3; 4]%Q /\
  cell_eq (mean_fid (summary_of (sweep_rows scenario_config scenario_world)))
          (mean_of [3; 4]%Q) /\
  match std_fid (summary_of (sweep_rows scenario_config scenario_world)) with
  | StdSqrt v => (v == 1 # 2)%Q
  | StdNaN => False
  end /\
  std_fid (summary_of [mkRow 10 0 (Some 5%Q)]) = StdNaN.
Proof.
  split; [reflexivity|]. split; [reflexivity|]. split; [reflexivity|].
  split; [|split; [vm_compute; reflexivity | reflexivity]].
  exact (proj1 (proj2 (proj2
           (C8_summary_over_ok_rows (sweep_rows scenario_config scenario_world))))).
Defined.

(** ** C3 *)

(** Without a single score, the text report cannot name a best row. *)
Lemma report_raises_without_ok_rows cfg df :
  ok_metrics df = [] -> exists e, snd (report cfg df) = Raise e.
Proof.
  intros Hno. unfold report, lift.
  destruct (pivot df) as [p|e]; [|cbn; eauto]. cbn.
  assert (Ht : text_report cfg df (sort_index p) =
               ([TTableTitle; TPivot (sort_index p); TSummaryTitle], Some Error_all_NaN)).
  { unfold text_report.
    destruct (idxmin_spec (map fid df)) as [[E _] | (j & m & _ & Hj & _)].
    - now rewrite E.
    - exfalso. exact (dropna_nil_no_number _ _ _ Hno Hj). }
  rewrite Ht. cbn. eauto.
Qed.

(** C3 is not met by the script.  With the shipped configuration and no
    sample folder on disk, every row has [fid = None] and the summary
    values are all NaN, as the claim has it; but the run ends with an
    exception, raised when the text report looks up the best row: the text
    file stops after the table and the summary title, and [main] does not
    return. *)
Theorem C3_all_folders_absent_run_raises :
  ok_metrics (sweep_rows default_config world_no_samples) = [] /\
  summary_of (sweep_rows default_config world_no_samples) =
    {| best_fid := None; worst_fid := None; mean_fid := None; std_fid := StdNaN |} /\
  snd (main default_config world_no_samples) = Raise Error_all_NaN /\
  exists pt,
    In (TxtWritten output_txt [TTableTitle; TPivot pt; TSummaryTitle])
       (fst (main default_config world_no_samples)).
Proof.
  split; [reflexivity|]. split; [reflexivity|]. split; [reflexivity|].
  eexists. vm_compute. repeat (first [left; reflexivity | right]).
Qed.

(** * Further properties of the script *)

(** ** The shape of a trace *)

Lemma filter_none {A} (f : A -> bool) l :
  (forall x, In x l -> f x = false) -> filter f l = [].
Proof.
  induction l as [|a l IH]; cbn; intros H; [reflexivity|].
  rewrite (H a) by now left. apply IH. intros x Hx. apply H. now right.
Qed.

Lemma main_trace cfg w :
  goes_on cfg w ->
  main cfg w =
  (preamble cfg w ++ fst (sweep cfg w) ++
     match snd (sweep cfg w) with
     | Done rs => Print LAllDone :: fst (report cfg rs)
     | Raise _ => []
     end,
   match snd (sweep cfg w) with
   | Done rs => snd (report cfg rs)
   | Raise e => Raise e
   end).
Proof.
  intros Hgo. destruct (sweep cfg w) as [t1 [rs|e]] eqn:Esw; cbn [fst snd].
  - destruct (report cfg rs) as [t2 r] eqn:Er. cbn [fst snd].
    now apply (main_sweep_done cfg w t1 rs t2 r).
  - rewrite app_nil_r. now apply main_sweep_raises.
Qed.

Lemma goes_on_b_spec cfg w : goes_on_b cfg w = true <-> goes_on cfg w.
Proof.
  unfold goes_on_b, goes_on. rewrite andb_true_iff, orb_true_iff. tauto.
Qed.

Lemma main_stops cfg w :
  goes_on_b cfg w = false ->
  main cfg w =
  (if path_exists w (samples_base_path cfg) then preamble cfg w
   else [Print (LBanner (reference_path cfg) (samples_base_path cfg)
                        (steps_list cfg) (eta_list cfg));
         Print (LSamplesNotFound (samples_base_path cfg))],
   Done tt).
Proof.
  unfold goes_on_b. intros H.
  destruct (path_exists w (samples_base_path cfg)) eqn:Hs.
  - cbn in H. apply orb_false_iff in H as [Hr Hn]. now apply main_declined.
  - now apply main_no_samples.
Qed.

Lemma point_trace_sweep_events cfg w total n s e t ev :
  In ev (point_trace cfg w total n s e t) -> is_sweep_event ev = true.
Proof.
  unfold point_trace. intros [<- | H]; [reflexivity|].
  destruct (path_exists w _); cbn in H.
  - destruct H as [<- | H]; [reflexivity|].
    destruct (calculate_fid_given_paths w _ 256 64); destruct H as [<- | []]; reflexivity.
  - destruct H as [<- | []]. reflexivity.
Qed.

Lemma row_trace_sweep_events cfg w total s es : forall n ev,
  In ev (row_trace cfg w total n s es) -> is_sweep_event ev = true.
Proof.
  induction es as [|e es IH]; intros n ev; cbn [row_trace]; [intros []|].
  destruct (dict_get eta_to_folder e); [|intros []].
  intros H. apply in_app_or in H as [H | H]; [eapply point_trace_sweep_events | eapply IH]; eauto.
Qed.

Lemma grid_trace_sweep_events cfg w total es ss : forall n ev,
  In ev (grid_trace cfg w total n ss es) -> is_sweep_event ev = true.
Proof.
  induction ss as [|s ss IH]; intros n ev; cbn [grid_trace]; [intros []|].
  intros H. apply in_app_or in H as [H | H]; [eapply row_trace_sweep_events | eapply IH]; eauto.
Qed.

Lemma sweep_events cfg w ev :
  In ev (fst (sweep cfg w)) -> is_sweep_event ev = true.
Proof.
  destruct (steps_list cfg) as [|s0 ss] eqn:Hs.
  - unfold sweep. rewrite Hs. intros [].
  - destruct (first_failure in_table (eta_list cfg)) as [Hok | (pre & x & post & He & Hpre & Hx)].
    + rewrite (sweep_ok _ _ Hok). apply grid_trace_sweep_events.
    + rewrite (sweep_fail _ _ _ _ _ _ _ Hs He Hpre Hx). apply row_trace_sweep_events.
Qed.

Lemma report_events cfg df ev :
  In ev (fst (report cfg df)) -> is_report_event ev = true.
Proof.
  unfold report, lift. destruct (pivot df) as [p|e]; [|cbn; intros []]. cbn.
  destruct (text_report cfg df (sort_index p)) as [items [e|]].
  - cbn. intros Hin.
    repeat (destruct Hin as [<- | Hin]; [reflexivity|]). destruct Hin.
  - destruct (loc df (idxmin (map fid df))) as [best|e];
      [destruct (loc df (idxmax (map fid df))) as [worst|e]|];
      cbn; intros Hin;
      repeat (destruct Hin as [<- | Hin]; [reflexivity|]); destruct Hin.
Qed.

Lemma preamble_events cfg w ev :
  In ev (preamble cfg w) ->
  is_sweep_event ev = false /\ is_report_event ev = false /\ ev <> Print LAllDone.
Proof.
  unfold preamble. destruct (path_exists w (reference_path cfg)); cbn.
  - intros [<- | []]. repeat split. discriminate.
  - intros [<- | [<- | [<- | []]]]; repeat split; discriminate.
Qed.

Lemma report_no_sweep_event cfg df ev :
  In ev (fst (report cfg df)) -> is_sweep_event ev = false /\ is_prompt ev = false.
Proof.
  intros H. apply report_events in H. destruct ev as [[]| | | | |]; try discriminate; now split.
Qed.

Lemma sweep_event_kinds ev :
  is_sweep_event ev = true ->
  is_prompt ev = false /\ is_artifact ev = false /\ ev <> Print LAllDone.
Proof. destruct ev as [[]| | | | |]; try discriminate; repeat split; discriminate. Qed.

Lemma after_sweep_events cfg w ev :
  In ev (after_sweep cfg w) -> is_sweep_event ev = false /\ is_prompt ev = false.
Proof.
  unfold after_sweep. destruct (snd (sweep cfg w)); [|intros []].
  intros [<- | H]; [now split | now apply report_no_sweep_event in H].
Qed.

(** ** The prompt *)

(** X1. The user is asked "Continue anyway?" exactly when the sample root
    exists and the reference path does not, and then exactly once; a run
    whose reference path exists, or whose sample root is missing, never
    prompts. *)
Theorem X1_prompt_exactly_for_a_missing_reference (cfg : Config) (w : World) :
  filter is_prompt (fst (main cfg w)) =
  if (path_exists w (samples_base_path cfg) &&
      negb (path_exists w (reference_path cfg)))%bool
  then [Prompt "Continue anyway? (y/n): "]
  else [].
Proof.
  assert (Hpre : filter is_prompt (preamble cfg w) =
                 if path_exists w (reference_path cfg) then []
                 else [Prompt "Continue anyway? (y/n): "]).
  { unfold preamble. now destruct (path_exists w (reference_path cfg)). }
  destruct (goes_on_b cfg w) eqn:Hgo.
  - assert (Hs : path_exists w (samples_base_path cfg) = true).
    { unfold goes_on_b in Hgo. now apply andb_true_iff in Hgo. }
    apply goes_on_b_spec in Hgo. rewrite (main_trace _ _ Hgo). cbn [fst].
    rewrite !filter_app, Hpre, Hs.
    rewrite (filter_none is_prompt (fst (sweep cfg w)))
      by (intros x Hx; apply sweep_events in Hx; now apply sweep_event_kinds in Hx).
    fold (after_sweep cfg w).
    rewrite (filter_none is_prompt (after_sweep cfg w))
      by (intros x Hx; now apply after_sweep_events in Hx).
    rewrite !app_nil_r. now destruct (path_exists w (reference_path cfg)).
  - rewrite (main_stops _ _ Hgo). cbn [fst].
    destruct (path_exists w (samples_base_path cfg)); [|reflexivity].
    rewrite Hpre. now destruct (path_exists w (reference_path cfg)).
Qed.

(** X2. When the sample root exists, the reference path does not and the
    answer at the prompt is anything but "y" or "Y", the run prints the
    banner and the warning, prompts, and returns: no pass through the loop
    body, no engine call, no file. *)
Theorem X2_declining_the_prompt_ends_the_run (cfg : Config) (w : World) :
  path_exists w (samples_base_path cfg) = true ->
  path_exists w (reference_path cfg) = false ->
  answered_yes (user_input w) = false ->
  main cfg w =
    ([Print (LBanner (reference_path cfg) (samples_base_path cfg)
                     (steps_list cfg) (eta_list cfg));
      Print (LReferenceNotFound (reference_path cfg));
      Prompt "Continue anyway? (y/n): "], Done tt) /\
  existsb is_engine_call (fst (main cfg w)) = false /\
  existsb is_progress (fst (main cfg w)) = false /\
  existsb is_artifact (fst (main cfg w)) = false.
Proof.
  intros Hs Hr Hn. rewrite (main_declined _ _ Hs Hr Hn).
  unfold preamble. rewrite Hr. repeat split.
Qed.

Lemma X2_witness :
  main default_config world_no_reference =
    ([Print (LBanner "./data/afhq/eval" "./samples" [10; 20; 50; 100; 1000]
                     [0; 1 # 5; 1 # 2; 1]%Q);
      Print (LReferenceNotFound "./data/afhq/eval");
      Prompt "Continue anyway? (y/n): "], Done tt).
Proof.
  exact (proj1 (X2_declining_the_prompt_ends_the_run default_config world_no_reference
                  eq_refl eq_refl eq_refl)).
Defined.

(** ** The files *)

Lemma report_artifact_list cfg df :
  filter is_artifact (fst (report cfg df)) =
  match pivot df with
  | Done p =>
      [ExcelSaved output_excel (build_workbook df (sort_index p));
       CsvSaved output_csv (sort_index p);
       TxtWritten output_txt (fst (text_report cfg df (sort_index p)))]
  | Raise _ => []
  end.
Proof.
  unfold report, lift. destruct (pivot df) as [p|e]; [|reflexivity]. cbn.
  destruct (text_report cfg df (sort_index p)) as [items [e|]]; [reflexivity|].
  destruct (loc df (idxmin (map fid df))) as [best|e];
    [destruct (loc df (idxmax (map fid df))) as [worst|e]|]; reflexivity.
Qed.

(** X3. A run writes either no file at all or all three, in the order
    workbook, CSV file, text file, under the names fid_results.xlsx,
    fid_results.csv and fid_results.txt; the table of the CSV file is the
    FID_Table sheet of the workbook.  It writes them exactly when it gets
    past its path checks, the sweep reaches its end and [pivot] accepts the
    rows. *)
Theorem X3_files_are_written_all_or_none (cfg : Config) (w : World) :
  filter is_artifact (fst (main cfg w)) =
  if goes_on_b cfg w then
    match snd (sweep cfg w) with
    | Done rs =>
        match pivot rs with
        | Done p =>
            [ExcelSaved "fid_results.xlsx" (build_workbook rs (sort_index p));
             CsvSaved "fid_results.csv" (FID_Table (build_workbook rs (sort_index p)));
             TxtWritten "fid_results.txt" (fst (text_report cfg rs (sort_index p)))]
        | Raise _ => []
        end
    | Raise _ => []
    end
  else [].
Proof.
  destruct (goes_on_b cfg w) eqn:Hgo.
  - apply goes_on_b_spec in Hgo. rewrite (main_trace _ _ Hgo). cbn [fst].
    rewrite !filter_app.
    rewrite (filter_none is_artifact (preamble cfg w))
      by (intros x Hx; eapply existsb_false_In; [apply preamble_quiet | exact Hx]).
    rewrite (filter_none is_artifact (fst (sweep cfg w)))
      by (intros x Hx; apply sweep_events in Hx; now apply sweep_event_kinds in Hx).
    cbn [app]. destruct (snd (sweep cfg w)) as [rs|e]; [|reflexivity].
    cbn [filter is_artifact]. apply report_artifact_list.
  - rewrite (main_stops _ _ Hgo). cbn [fst].
    destruct (path_exists w (samples_base_path cfg)); [|reflexivity].
    apply filter_none. intros x Hx. eapply existsb_false_In; [apply preamble_quiet | exact Hx].
Qed.

(** ** The end of the sweep *)

(** X4. The line "All calculations completed!" is printed exactly when the
    run gets past its path checks and the loop runs to its end, that is,
    when the steps list is empty or every eta has a folder token; how many
    points were skipped or failed plays no part. *)
Theorem X4_completion_line (cfg : Config) (w : World) :
  In (Print LAllDone) (fst (main cfg w)) <->
  goes_on cfg w /\ (steps_list cfg = [] \/ forallb in_table (eta_list cfg) = true).
Proof.
  destruct (goes_on_b cfg w) eqn:Hgo.
  - apply goes_on_b_spec in Hgo. rewrite (main_trace _ _ Hgo). cbn [fst].
    assert (Hsw : (exists rs, snd (sweep cfg w) = Done rs) <->
                  (steps_list cfg = [] \/ forallb in_table (eta_list cfg) = true)).
    { destruct (steps_list cfg) as [|s0 ss] eqn:Hs.
      - unfold sweep. rewrite Hs. cbn. split; [now left | eauto].
      - destruct (first_failure in_table (eta_list cfg))
          as [Hok | (pre & x & post & He & Hpre & Hx)].
        + rewrite (sweep_ok _ _ Hok). cbn. split; [now right | eauto].
        + rewrite (sweep_fail _ _ _ _ _ _ _ Hs He Hpre Hx). cbn.
          split; [intros [rs H]; discriminate|].
          intros [H | H]; [discriminate|].
          rewrite He, forallb_app in H. cbn in H. rewrite Hx in H.
          rewrite andb_false_r in H. discriminate. }
    rewrite <- Hsw. split.
    + intros H. split; [exact Hgo|].
      apply in_app_or in H as [H | H]; [now apply preamble_events in H|].
      apply in_app_or in H as [H | H].
      * apply sweep_events in H. now apply sweep_event_kinds in H.
      * destruct (snd (sweep cfg w)); [eauto | destruct H].
    + intros [_ [rs Hrs]]. rewrite Hrs. apply in_or_app. right. apply in_or_app. right. now left.
  - rewrite (main_stops _ _ Hgo). cbn [fst]. split.
    + intros H. exfalso.
      destruct (path_exists w (samples_base_path cfg)).
      * now apply preamble_events in H.
      * destruct H as [H | [H | []]]; discriminate.
    + intros [H _]. apply goes_on_b_spec in H. congruence.
Qed.

Lemma X4_witness :
  In (Print LAllDone) (fst (main default_config world_no_samples)).
Proof.
  apply (proj2 (X4_completion_line default_config world_no_samples)).
  split; [split; [reflexivity | left; reflexivity] | right; reflexivity].
Defined.

(** ** What the loop does, pass by pass *)

Lemma grid_cons s ss es : grid (s :: ss) es = map (fun e => (s, e)) es ++ grid ss es.
Proof. reflexivity. Qed.

Lemma engine_calls_of_row cfg w s es :
  map (engine_call_at cfg s) (filter (folder_present cfg w s) es) =
  map (fun p => engine_call_at cfg (fst p) (snd p))
      (filter (fun p => folder_present cfg w (fst p) (snd p)) (map (fun e => (s, e)) es)).
Proof.
  induction es as [|e es IH]; cbn; [reflexivity|].
  destruct (folder_present cfg w s e); cbn; now rewrite IH.
Qed.

Lemma grid_trace_engine_calls cfg w total es ss :
  forallb in_table es = true -> forall n,
  filter is_engine_call (grid_trace cfg w total n ss es) =
  map (fun p => engine_call_at cfg (fst p) (snd p))
      (filter (fun p => folder_present cfg w (fst p) (snd p)) (grid ss es)).
Proof.
  intros Hes. induction ss as [|s ss IH]; intros n; [reflexivity|].
  cbn [grid_trace]. rewrite grid_cons, !filter_app, map_app, IH.
  now rewrite (row_trace_engine_calls _ _ _ _ _ _ Hes), engine_calls_of_row.
Qed.

Lemma enumerate_from_app {A} (a b : list A) : forall n,
  enumerate_from n (a ++ b) = enumerate_from n a ++ enumerate_from (n + List.length a) b.
Proof.
  induction a as [|x a IH]; intros n; cbn.
  - now rewrite Nat.add_0_r.
  - now rewrite IH, Nat.add_succ_r.
Qed.

Lemma point_trace_progress cfg w total n s e t :
  filter is_progress (point_trace cfg w total n s e t) =
  [Print (LProgress n total s e (folder_name_of s t))].
Proof.
  unfold point_trace. cbn. destruct (path_exists w _); cbn; [|reflexivity].
  now destruct (calculate_fid_given_paths w _ 256 64).
Qed.

Lemma row_trace_progress cfg w total s es :
  forallb in_table es = true -> forall n,
  filter is_progress (row_trace cfg w total n s es) =
  map (fun kp => progress_line total (fst kp) (snd kp))
      (enumerate_from n (map (fun e => (s, e)) es)).
Proof.
  induction es as [|e es IH]; intros Hes n; [reflexivity|].
  cbn in Hes. apply andb_true_iff in Hes as [He Hes]. unfold in_table in He.
  cbn [row_trace map enumerate_from]. unfold progress_line at 1. cbn [fst snd].
  destruct (dict_get eta_to_folder e) as [t|]; [|discriminate].
  now rewrite filter_app, point_trace_progress, (IH Hes).
Qed.

Lemma grid_trace_progress cfg w total es ss :
  forallb in_table es = true -> forall n,
  filter is_progress (grid_trace cfg w total n ss es) =
  map (fun kp => progress_line total (fst kp) (snd kp)) (enumerate_from n (grid ss es)).
Proof.
  intros Hes. induction ss as [|s ss IH]; intros n; [reflexivity|].
  cbn [grid_trace]. rewrite grid_cons, filter_app, enumerate_from_app, map_app.
  now rewrite (row_trace_progress _ _ _ _ _ Hes), IH, length_map.
Qed.

Lemma flat_map_none {A B} (f : A -> list B) l :
  (forall x, In x l -> f x = []) -> flat_map f l = [].
Proof.
  induction l as [|a l IH]; cbn; intros H; [reflexivity|].
  rewrite (H a) by now left. apply IH. intros x Hx. apply H. now right.
Qed.

Lemma dropna_app a b : dropna (a ++ b) = dropna a ++ dropna b.
Proof.
  induction a as [|[v|] a IH]; cbn; [reflexivity | now rewrite IH | exact IH].
Qed.

Lemma printed_scores_app a b : printed_scores (a ++ b) = printed_scores a ++ printed_scores b.
Proof. apply flat_map_app. Qed.

Lemma point_trace_scores cfg w total n s e t :
  dict_get eta_to_folder e = Some t ->
  printed_scores (point_trace cfg w total n s e t) = dropna [fid (point_row cfg w s e)].
Proof.
  intros Ht. unfold point_trace, point_row, point_status, token_status. rewrite Ht.
  cbn [option_map mkRow fid].
  destruct (path_exists w (sample_path_of cfg s t)); cbn; [|reflexivity].
  now destruct (calculate_fid_given_paths w _ 256 64).
Qed.

Lemma row_trace_scores cfg w total s es :
  forallb in_table es = true -> forall n,
  printed_scores (row_trace cfg w total n s es) =
  dropna (map fid (map (point_row cfg w s) es)).
Proof.
  induction es as [|e es IH]; intros Hes n; [reflexivity|].
  cbn in Hes. apply andb_true_iff in Hes as [He Hes]. unfold in_table in He.
  cbn [row_trace map].
  destruct (dict_get eta_to_folder e) as [t|] eqn:Ht; [|discriminate].
  rewrite printed_scores_app, (point_trace_scores _ _ _ _ _ _ _ Ht), (IH Hes).
  change (fid (point_row cfg w s e) :: map fid (map (point_row cfg w s) es))
    with ([fid (point_row cfg w s e)] ++ map fid (map (point_row cfg w s) es)).
  now rewrite dropna_app.
Qed.

Lemma grid_trace_scores cfg w total es ss :
  forallb in_table es = true -> forall n,
  printed_scores (grid_trace cfg w total n ss es) =
  dropna (map fid (flat_map (fun s => map (point_row cfg w s) es) ss)).
Proof.
  intros Hes. induction ss as [|s ss IH]; intros n; [reflexivity|].
  cbn [grid_trace flat_map].
  now rewrite printed_scores_app, map_app, dropna_app, (row_trace_scores _ _ _ _ _ Hes), IH.
Qed.

(** The part of a run's trace that a test [f] keeps, when [f] keeps
    nothing of the preamble and of what follows the sweep. *)
Lemma main_filter_sweep (f : event -> bool) cfg w :
  (forall ev, is_sweep_event ev = false -> f ev = false) ->
  filter f (fst (main cfg w)) =
  if goes_on_b cfg w then filter f (fst (sweep cfg w)) else [].
Proof.
  intros Hf.
  destruct (goes_on_b cfg w) eqn:Hgo.
  - apply goes_on_b_spec in Hgo. rewrite (main_trace _ _ Hgo). cbn [fst].
    fold (after_sweep cfg w). rewrite !filter_app.
    rewrite (filter_none f (preamble cfg w))
      by (intros x Hx; apply Hf; now apply preamble_events in Hx).
    rewrite (filter_none f (after_sweep cfg w))
      by (intros x Hx; apply Hf; now apply after_sweep_events in Hx).
    now rewrite app_nil_r.
  - rewrite (main_stops _ _ Hgo). cbn [fst]. apply filter_none. intros x Hx. apply Hf.
    destruct (path_exists w (samples_base_path cfg)).
    + now apply preamble_events in Hx.
    + destruct Hx as [<- | [<- | []]]; reflexivity.
Qed.

(** X5. When every eta has a folder token, the engine is called exactly
    once for every grid point whose sample folder exists, in grid order,
    and never for a point whose folder is absent; every call passes the
    reference path and that point's folder, image size 256 and batch size
    64.  A run stopped by a path check calls it not at all. *)
Theorem X5_engine_called_once_per_present_folder (cfg : Config) (w : World) :
  forallb in_table (eta_list cfg) = true ->
  filter is_engine_call (fst (main cfg w)) =
  if goes_on_b cfg w then
    map (fun p => FidCall [reference_path cfg; sample_path cfg (fst p) (snd p)] 256 64)
        (filter (fun p => path_exists w (sample_path cfg (fst p) (snd p)))
                (grid (steps_list cfg) (eta_list cfg)))
  else [].
Proof.
  intros Hes. rewrite main_filter_sweep by (now intros [[]| | | | |]).
  destruct (goes_on_b cfg w); [|reflexivity].
  rewrite (sweep_ok _ _ Hes). cbn [fst].
  now apply grid_trace_engine_calls.
Qed.

Lemma X5_scenario_witness :
  filter is_engine_call (fst (main scenario_config scenario_world)) =
  [FidCall ["./data/afhq/eval"; "./samples/steps_10_eta_0"] 256 64;
   FidCall ["./data/afhq/eval"; "./samples/steps_10_eta_1"] 256 64;
   FidCall ["./data/afhq/eval"; "./samples/steps_20_eta_0"] 256 64].
Proof.
  exact (X5_engine_called_once_per_present_folder scenario_config scenario_world eq_refl).
Defined.

(** X6. When every eta has a folder token and the run gets past its path
    checks, the progress lines are one per grid point in grid order; the
    [k]-th of them shows the counter [k] (from 1), the total
    [len(steps_list) * len(eta_list)], the point and its folder name
    [steps_<steps>_<token>]. *)
Theorem X6_progress_lines_count_the_grid (cfg : Config) (w : World) :
  forallb in_table (eta_list cfg) = true ->
  goes_on cfg w ->
  filter is_progress (fst (main cfg w)) =
  map (fun kp =>
         progress_line (List.length (steps_list cfg) * List.length (eta_list cfg))
                       (fst kp) (snd kp))
      (enumerate_from 0 (grid (steps_list cfg) (eta_list cfg))).
Proof.
  intros Hes Hgo. rewrite main_filter_sweep by (now intros [[]| | | | |]).
  apply goes_on_b_spec in Hgo. rewrite Hgo, (sweep_ok _ _ Hes). cbn [fst].
  now apply grid_trace_progress.
Qed.

Lemma X6_scenario_witness :
  filter is_progress (fst (main scenario_config scenario_world)) =
  [Print (LProgress 1 4 10 0 "steps_10_eta_0");
   Print (LProgress 2 4 10 1 "steps_10_eta_1");
   Print (LProgress 3 4 20 0 "steps_20_eta_0");
   Print (LProgress 4 4 20 1 "steps_20_eta_1")].
Proof.
  exact (X6_progress_lines_count_the_grid scenario_config scenario_world eq_refl
           (conj eq_refl (or_introl eq_refl))).
Defined.

Lemma printed_scores_none l :
  (forall ev, In ev l -> is_sweep_event ev = false) -> printed_scores l = [].
Proof.
  intros H. apply flat_map_none. intros ev Hev. apply H in Hev.
  now destruct ev as [[]| | | | |].
Qed.

(** X7. The scores the console shows during the sweep are, in order,
    exactly the scores of the ok rows handed to the reports: a score is
    printed if and only if it is recorded. *)
Theorem X7_printed_scores_are_the_recorded_ones (cfg : Config) (w : World) :
  forallb in_table (eta_list cfg) = true ->
  printed_scores (fst (main cfg w)) =
  if goes_on_b cfg w then ok_metrics (sweep_rows cfg w) else [].
Proof.
  intros Hes. destruct (goes_on_b cfg w) eqn:Hgo.
  - apply goes_on_b_spec in Hgo. rewrite (main_trace _ _ Hgo). cbn [fst].
    fold (after_sweep cfg w). rewrite !printed_scores_app.
    rewrite (printed_scores_none (preamble cfg w))
      by (intros x Hx; now apply preamble_events in Hx).
    rewrite (printed_scores_none (after_sweep cfg w))
      by (intros x Hx; now apply after_sweep_events in Hx).
    rewrite app_nil_r, (sweep_ok _ _ Hes). cbn [fst Datatypes.app].
    now apply grid_trace_scores.
  - rewrite (main_stops _ _ Hgo). cbn [fst]. apply printed_scores_none. intros x Hx.
    destruct (path_exists w (samples_base_path cfg)).
    + now apply preamble_events in Hx.
    + destruct Hx as [<- | [<- | []]]; reflexivity.
Qed.

Lemma X7_scenario_witness :
  printed_scores (fst (main scenario_config scenario_world)) = [3; 4]%Q.
Proof.
  exact (X7_printed_scores_are_the_recorded_ones scenario_config scenario_world eq_refl).
Defined.

(** ** How a run that gets to the reports ends *)

Lemma report_pivot_raises cfg df e :
  pivot df = Raise e -> report cfg df = ([], Raise e).
Proof. intros H. unfold report, lift. now rewrite H. Qed.

Lemma report_completes cfg df p :
  pivot df = Done p -> ok_metrics df <> [] ->
  snd (report cfg df) = Done tt /\
  In (Print (LSaved output_txt)) (fst (report cfg df)).
Proof.
  intros Hp Hne.
  destruct (best_and_worst_exist df Hne)
    as (i & j & best & worst & mb & mw & Ei & Hb & _ & _ & Ej & Hw & _ & _).
  unfold report, lift. rewrite Hp. cbn.
  rewrite (text_report_ok cfg df (sort_index p) i j best worst Ei Hb Ej Hw).
  unfold loc. rewrite Ei, Hb, Ej, Hw. cbn. split; [reflexivity|]. auto 10.
Qed.

Lemma report_without_scores cfg df p :
  pivot df = Done p -> ok_metrics df = [] ->
  report cfg df =
  ([Print (LTable (sort_index p));
    ExcelSaved output_excel (build_workbook df (sort_index p));
    Print (LSaved output_excel);
    CsvSaved output_csv (sort_index p);
    Print (LSaved output_csv);
    TxtWritten output_txt [TTableTitle; TPivot (sort_index p); TSummaryTitle]],
   Raise Error_all_NaN).
Proof.
  intros Hp Hno. unfold report, lift. rewrite Hp. cbn.
  assert (Ht : text_report cfg df (sort_index p) =
               ([TTableTitle; TPivot (sort_index p); TSummaryTitle], Some Error_all_NaN)).
  { unfold text_report.
    destruct (idxmin_spec (map fid df)) as [[E _] | (j & m & _ & Hj & _)].
    - now rewrite E.
    - exfalso. exact (dropna_nil_no_number _ _ _ Hno Hj). }
  now rewrite Ht.
Qed.

Lemma main_after_sweep cfg w :
  goes_on cfg w -> forallb in_table (eta_list cfg) = true ->
  main cfg w =
  (preamble cfg w ++ fst (sweep cfg w) ++
     Print LAllDone :: fst (report cfg (sweep_rows cfg w)),
   snd (report cfg (sweep_rows cfg w))).
Proof.
  intros Hgo Hes. rewrite (main_trace _ _ Hgo). now rewrite (sweep_ok _ _ Hes).
Qed.

Lemma point_row_ok_in_rows cfg w s e v :
  In s (steps_list cfg) -> In e (eta_list cfg) ->
  point_status cfg w s e = Some (ok v) ->
  ok_metrics (sweep_rows cfg w) <> [].
Proof.
  intros Hs He Hst. apply (ok_metrics_nonempty _ (point_row cfg w s e) v).
  - unfold sweep_rows. apply in_flat_map. exists s. split; [exact Hs|]. now apply in_map.
  - unfold point_row. cbn. now rewrite Hst.
Qed.

(** X8. A run that gets past its path checks, over two non-empty lists
    that repeat no value and whose eta values all have a folder token, in
    which at least one grid point gets a score, returns normally, having
    written the three files and printed the closing summary. *)
Theorem X8_a_run_with_a_score_completes (cfg : Config) (w : World) :
  goes_on cfg w ->
  steps_list cfg <> [] -> eta_list cfg <> [] ->
  NoDup (steps_list cfg) -> NoDupA Qeq (eta_list cfg) ->
  forallb in_table (eta_list cfg) = true ->
  (exists s e v, In s (steps_list cfg) /\ In e (eta_list cfg) /\
                 point_status cfg w s e = Some (ok v)) ->
  snd (main cfg w) = Done tt /\
  List.length (filter is_artifact (fst (main cfg w))) = 3%nat /\
  In (Print (LSaved "fid_results.txt")) (fst (main cfg w)) /\
  exists m sd, In (Print (LOverall (Some m) sd)) (fst (main cfg w)).
Proof.
  intros Hgo Hss Hes Hnd Hnde Htab (s & e & v & Hs & He & Hst).
  destruct (pivot_accepts_sweep cfg w Hss Hes Hnd Hnde) as [p Hp].
  assert (Hne := point_row_ok_in_rows _ _ _ _ _ Hs He Hst).
  destruct (report_completes cfg _ p Hp Hne) as [Hdone Hsaved].
  rewrite (main_after_sweep _ _ Hgo Htab). cbn [fst snd].
  split; [exact Hdone|]. split; [|split].
  - rewrite !filter_app.
    rewrite (filter_none is_artifact (preamble cfg w))
      by (intros x Hx; eapply existsb_false_In; [apply preamble_quiet | exact Hx]).
    rewrite (filter_none is_artifact (fst (sweep cfg w)))
      by (intros x Hx; apply sweep_events in Hx; now apply sweep_event_kinds in Hx).
    cbn [Datatypes.app filter is_artifact]. now rewrite report_artifact_list, Hp.
  - apply in_or_app. right. apply in_or_app. right. right. exact Hsaved.
  - destruct (best_and_worst_exist _ Hne)
      as (i & j & best & worst & mb & mw & Ei & Hb & _ & _ & Ej & Hw & _ & _).
    assert (Hm : exists m, series_mean (map fid (sweep_rows cfg w)) = Some m).
    { unfold series_mean. rewrite series_count_dropna. fold (ok_metrics (sweep_rows cfg w)).
      destruct (ok_metrics (sweep_rows cfg w)); [contradiction | cbn; eauto]. }
    destruct Hm as [m Hm]. exists m, (series_std (map fid (sweep_rows cfg w))).
    apply in_or_app. right. apply in_or_app. right. right.
    unfold report, lift. rewrite Hp. cbn.
    rewrite (text_report_ok cfg _ (sort_index p) i j best worst Ei Hb Ej Hw).
    unfold loc. rewrite Ei, Hb, Ej, Hw. cbn. rewrite Hm. auto 20.
Qed.

Lemma X8_scenario_witness :
  snd (main scenario_config scenario_world) = Done tt /\
  List.length (filter is_artifact (fst (main scenario_config scenario_world))) = 3%nat.
Proof.
  destruct (X8_a_run_with_a_score_completes scenario_config scenario_world)
    as (H1 & H2 & _).
  - split; [reflexivity | left; reflexivity].
  - discriminate.
  - discriminate.
  - repeat constructor; cbn; intuition discriminate.
  - repeat constructor; intros H; inversion H; subst;
      match goal with
      | E : (_ == _)%Q |- _ => vm_compute in E; discriminate
      | E : InA _ _ _ |- _ => inversion E
      end.
  - reflexivity.
  - exists 10, 0%Q, 3%Q. split; [now left | split; [now left | reflexivity]].
  - split; assumption.
Defined.

Lemma no_ok_point_no_metric cfg w :
  (forall s e v, In s (steps_list cfg) -> In e (eta_list cfg) ->
                 point_status cfg w s e <> Some (ok v)) ->
  ok_metrics (sweep_rows cfg w) = [].
Proof.
  intros H. unfold ok_metrics.
  destruct (dropna (map fid (sweep_rows cfg w))) as [|v l] eqn:E; [reflexivity|].
  exfalso.
  assert (Hin : In v (dropna (map fid (sweep_rows cfg w)))) by (rewrite E; now left).
  assert (Hr : exists r, In r (sweep_rows cfg w) /\ fid r = Some v).
  { clear E H. induction (sweep_rows cfg w) as [|r rs IH]; [destruct Hin|].
    cbn in Hin. destruct (fid r) as [x|] eqn:Ex.
    - destruct Hin as [-> | Hin]; [exists r; split; [now left | exact Ex]|].
      destruct (IH Hin) as (r' & Hr' & Hv). exists r'. split; [now right | exact Hv].
    - destruct (IH Hin) as (r' & Hr' & Hv). exists r'. split; [now right | exact Hv]. }
  destruct Hr as (r & Hr & Hv).
  apply in_sweep_rows in Hr as (s & e & Hs & He & ->).
  apply (H s e v Hs He). unfold point_row in Hv. cbn in Hv.
  destruct (point_status cfg w s e) as [[x| |]|]; try discriminate. now inversion Hv.
Qed.

(** X9. A run that gets past its path checks, over two non-empty lists
    that repeat no value and whose eta values all have a folder token, in
    which no grid point gets a score (every folder absent or every engine
    call raising), does not return: it ends with an exception raised when
    the text report looks up the best row, the text file holding only the
    table and the summary title. *)
Theorem X9_a_run_without_a_score_raises (cfg : Config) (w : World) :
  goes_on cfg w ->
  steps_list cfg <> [] -> eta_list cfg <> [] ->
  NoDup (steps_list cfg) -> NoDupA Qeq (eta_list cfg) ->
  forallb in_table (eta_list cfg) = true ->
  (forall s e v, In s (steps_list cfg) -> In e (eta_list cfg) ->
                 point_status cfg w s e <> Some (ok v)) ->
  snd (main cfg w) = Raise Error_all_NaN /\
  exists pt,
    In (TxtWritten output_txt [TTableTitle; TPivot pt; TSummaryTitle]) (fst (main cfg w)) /\
    ~ In (Print (LSaved output_txt)) (fst (main cfg w)).
Proof.
  intros Hgo Hss Hes Hnd Hnde Htab Hno.
  destruct (pivot_accepts_sweep cfg w Hss Hes Hnd Hnde) as [p Hp].
  assert (Hr := report_without_scores cfg _ p Hp (no_ok_point_no_metric _ _ Hno)).
  rewrite (main_after_sweep _ _ Hgo Htab), Hr. cbn [fst snd].
  split; [reflexivity|]. exists (sort_index p). split.
  - apply in_or_app. right. apply in_or_app. right. cbn. auto 10.
  - intros H. apply in_app_or in H as [H | H]; [now apply preamble_events in H|].
    apply in_app_or in H as [H | H].
    + apply sweep_events in H. discriminate.
    + cbn in H. unfold output_txt, output_excel, output_csv in H.
      repeat (destruct H as [H | H]; [discriminate|]). destruct H.
Qed.

Lemma X9_witness :
  snd (main default_config world_no_samples) = Raise Error_all_NaN.
Proof.
  refine (proj1 (X9_a_run_without_a_score_raises default_config world_no_samples
                   _ _ _ _ _ _ _)).
  - split; [reflexivity | left; reflexivity].
  - discriminate.
  - discriminate.
  - repeat constructor; cbn; intuition discriminate.
  - repeat constructor; intros H;
      repeat match goal with
             | E : InA _ _ (_ :: _) |- _ => inversion E; clear E; subst
             | E : InA _ _ [] |- _ => inversion E
             | E : (_ == _)%Q |- _ => vm_compute in E; discriminate
             end.
  - reflexivity.
  - intros s e v Hs He.
    cbn in Hs, He.
    repeat (destruct Hs as [<- | Hs]; [repeat (destruct He as [<- | He]; [discriminate|]); destruct He|]).
    destruct Hs.
Defined.

Lemma has_duplicates_found a r b r' c :
  same_point r r' = true -> has_duplicates (a ++ r :: b ++ r' :: c) = true.
Proof.
  intros H. induction a as [|x a IH]; cbn.
  - apply orb_true_iff. left. apply existsb_exists. exists r'.
    split; [apply in_or_app; right; now left | exact H].
  - rewrite IH. apply orb_true_r.
Qed.

Lemma same_point_row cfg w s e e' :
  (e == e')%Q -> same_point (point_row cfg w s e) (point_row cfg w s e') = true.
Proof.
  intros H. unfold same_point, point_row. cbn. rewrite Z.eqb_refl. cbn.
  now apply Qeq_bool_iff.
Qed.

Lemma sweep_rows_eq cfg w :
  sweep_rows cfg w =
  flat_map (fun s => map (point_row cfg w s) (eta_list cfg)) (steps_list cfg).
Proof. reflexivity. Qed.

Lemma repeated_steps_duplicate cfg w l1 s l2 l3 :
  steps_list cfg = l1 ++ s :: l2 ++ s :: l3 -> eta_list cfg <> [] ->
  has_duplicates (sweep_rows cfg w) = true.
Proof.
  intros Hs He. rewrite sweep_rows_eq, Hs.
  destruct (eta_list cfg) as [|e es]; [contradiction|].
  rewrite flat_map_app. cbn [flat_map map]. rewrite flat_map_app. cbn [flat_map map].
  rewrite <- !app_comm_cons, (app_assoc (map (point_row cfg w s) es)).
  apply has_duplicates_found. apply same_point_row. reflexivity.
Qed.

Lemma repeated_eta_duplicate cfg w l1 e l2 e' l3 :
  eta_list cfg = l1 ++ e :: l2 ++ e' :: l3 -> (e == e')%Q -> steps_list cfg <> [] ->
  has_duplicates (sweep_rows cfg w) = true.
Proof.
  intros He Heq Hs. rewrite sweep_rows_eq, He.
  destruct (steps_list cfg) as [|s ss]; [contradiction|].
  cbn [flat_map]. rewrite map_app. cbn [map]. rewrite map_app. cbn [map].
  rewrite <- app_assoc, <- app_comm_cons, <- app_assoc, <- app_comm_cons.
  apply has_duplicates_found. now apply same_point_row.
Qed.

(** X10. When a steps value occurs twice in the steps list, or two equal
    numbers occur in the eta list (on a non-empty grid, every eta having a
    folder token), a run that gets past its path checks carries out the
    whole sweep, prints the completion line, and then ends with the
    exception [pivot] raises for a repeated (steps, eta) pair: no file is
    written. *)
Theorem X10_a_repeated_value_raises_after_the_sweep (cfg : Config) (w : World) :
  goes_on cfg w ->
  forallb in_table (eta_list cfg) = true ->
  ((exists l1 s l2 l3, steps_list cfg = l1 ++ s :: l2 ++ s :: l3) /\ eta_list cfg <> []) \/
  ((exists l1 e l2 e' l3, eta_list cfg = l1 ++ e :: l2 ++ e' :: l3 /\ (e == e')%Q) /\
   steps_list cfg <> []) ->
  main cfg w =
    (preamble cfg w ++ fst (sweep cfg w) ++ [Print LAllDone], Raise ValueError_duplicates) /\
  filter is_artifact (fst (main cfg w)) = [].
Proof.
  intros Hgo Htab Hrep.
  assert (Hdup : has_duplicates (sweep_rows cfg w) = true).
  { destruct Hrep as [[(l1 & s & l2 & l3 & Hs) He] | [(l1 & e & l2 & e' & l3 & He & Heq) Hs]].
    - eapply repeated_steps_duplicate; eassumption.
    - eapply repeated_eta_duplicate; eassumption. }
  assert (Hp : pivot (sweep_rows cfg w) = Raise ValueError_duplicates).
  { unfold pivot. rewrite Hdup. destruct (sweep_rows cfg w); [discriminate | reflexivity]. }
  rewrite (main_after_sweep _ _ Hgo Htab), (report_pivot_raises _ _ _ Hp). cbn [fst snd].
  split; [reflexivity|].
  rewrite !filter_app.
  rewrite (filter_none is_artifact (preamble cfg w))
    by (intros x Hx; eapply existsb_false_In; [apply preamble_quiet | exact Hx]).
  rewrite (filter_none is_artifact (fst (sweep cfg w)))
    by (intros x Hx; apply sweep_events in Hx; now apply sweep_event_kinds in Hx).
  reflexivity.
Qed.

Lemma X10_witness :
  snd (main repeated_steps_config world_all_ok) = Raise ValueError_duplicates /\
  List.length (filter is_engine_call (fst (main repeated_steps_config world_all_ok))) = 6%nat.
Proof.
  destruct (X10_a_repeated_value_raises_after_the_sweep repeated_steps_config world_all_ok)
    as [H _].
  - split; [reflexivity | left; reflexivity].
  - reflexivity.
  - left. split; [|discriminate]. exists [], 10, [20], []. reflexivity.
  - rewrite H. split; reflexivity.
Defined.

Lemma grid_trace_no_eta cfg w total ss : forall n, grid_trace cfg w total n ss [] = [].
Proof. induction ss as [|s ss IH]; intros n; cbn; [reflexivity | apply IH]. Qed.

Lemma sweep_rows_no_eta cfg w ss :
  flat_map (fun s => map (point_row cfg w s) []) ss = [].
Proof. induction ss as [|s ss IH]; cbn; [reflexivity | exact IH]. Qed.

(** X11. With an empty steps list or an empty eta list, a run that gets
    past its path checks makes no pass through the loop body, prints the
    completion line, and ends with the exception [pivot] raises on a frame
    without columns: no engine call, no file.  With an empty steps list
    this holds even when an eta has no folder token: the table is never
    consulted. *)
Theorem X11_an_empty_list_raises_at_the_pivot (cfg : Config) (w : World) :
  goes_on cfg w ->
  steps_list cfg = [] \/ eta_list cfg = [] ->
  main cfg w = (preamble cfg w ++ [Print LAllDone], Raise KeyError_column).
Proof.
  intros Hgo Hempty.
  assert (Hsw : sweep cfg w = ([], Done [])).
  { destruct Hempty as [Hs | He].
    - unfold sweep. now rewrite Hs.
    - assert (Hok : forallb in_table (eta_list cfg) = true) by now rewrite He.
      rewrite (sweep_ok _ _ Hok). unfold sweep_rows. rewrite He.
      now rewrite grid_trace_no_eta, sweep_rows_no_eta. }
  rewrite (main_trace _ _ Hgo), Hsw. reflexivity.
Qed.

Lemma X11_witness :
  main empty_steps_config world_all_ok =
  ([Print (LBanner "./data/afhq/eval" "./samples" [] [0; 1]%Q); Print LAllDone],
   Raise KeyError_column).
Proof.
  exact (X11_an_empty_list_raises_at_the_pivot empty_steps_config world_all_ok
           (conj eq_refl (or_introl eq_refl)) (or_introl eq_refl)).
Defined.

(** ** Folder names *)

Lemma no_underscore_uint d : no_underscore (NilEmpty.string_of_uint d) = true.
Proof. induction d; cbn; auto. Qed.

Lemma no_underscore_str_int n : no_underscore (str_int n) = true.
Proof.
  unfold str_int, NilZero.string_of_int, NilZero.string_of_uint.
  destruct (Z.to_int n) as [d|d]; destruct d; cbn; auto using no_underscore_uint.
Qed.

Lemma str_int_inj n n' : str_int n = str_int n' -> n = n'.
Proof.
  unfold str_int. intros H.
  assert (Hnn : forall z, Z.to_int z <> Pos Nil /\ Z.to_int z <> Neg Nil).
  { intros [|p|p]; cbn; split; try discriminate; intros E; inversion E;
      now apply (DecimalPos.Unsigned.to_uint_nonnil p). }
  apply DecimalZ.to_int_inj.
  assert (E : Some (Z.to_int n) = Some (Z.to_int n')).
  { rewrite <- (NilZero.isi (Z.to_int n)) by apply Hnn.
    rewrite <- (NilZero.isi (Z.to_int n')) by apply Hnn.
    now rewrite H. }
  now inversion E.
Qed.

Lemma split_at_underscore a : forall a' r r',
  no_underscore a = true -> no_underscore a' = true ->
  (a ++ String "_" r)%string = (a' ++ String "_" r')%string ->
  a = a' /\ r = r'.
Proof.
  induction a as [|c a IH]; intros [|c' a'] r r' Ha Ha' H; cbn in *.
  - inversion H. now split.
  - inversion H. subst c'. discriminate.
  - inversion H. subst c. discriminate.
  - inversion H. subst c'.
    apply andb_true_iff in Ha as [_ Ha]. apply andb_true_iff in Ha' as [_ Ha'].
    destruct (IH _ _ _ Ha Ha' H2) as [-> ->]. now split.
Qed.

Lemma append_cancel_l (a x y : string) : (a ++ x)%string = (a ++ y)%string -> x = y.
Proof. induction a as [|c a IH]; cbn; intros H; [exact H | inversion H; auto]. Qed.

Lemma folder_name_inj s t s' t' :
  folder_name_of s t = folder_name_of s' t' -> s = s' /\ t = t'.
Proof.
  unfold folder_name_of. intros H.
  apply (append_cancel_l "steps_") in H.
  apply split_at_underscore in H as [Hs Ht]; try apply no_underscore_str_int.
  split; [now apply str_int_inj | exact Ht].
Qed.

Lemma path_join_folder a s t :
  path_join a (folder_name_of s t) =
  ((if (String.eqb a "" || ends_with_slash a)%bool then a else a ++ "/") ++
   folder_name_of s t)%string.
Proof.
  unfold path_join, folder_name_of. cbn.
  destruct (String.eqb a "" || ends_with_slash a)%bool; [reflexivity|].
  induction a as [|c a IH]; cbn; [reflexivity | now rewrite IH].
Qed.

Lemma sample_path_of_inj cfg s t s' t' :
  sample_path_of cfg s t = sample_path_of cfg s' t' -> s = s' /\ t = t'.
Proof.
  unfold sample_path_of. rewrite !path_join_folder. intros H.
  apply append_cancel_l in H. now apply folder_name_inj.
Qed.

Lemma dict_get_compat e e' :
  (e == e')%Q -> dict_get eta_to_folder e = dict_get eta_to_folder e'.
Proof.
  intros H. unfold eta_to_folder. cbn [dict_get].
  now rewrite !(Qeq_bool_compat _ _ _ H).
Qed.

(** The tokens of the table are pairwise different. *)
Lemma token_inj e e' t :
  dict_get eta_to_folder e = Some t -> dict_get eta_to_folder e' = Some t -> (e == e')%Q.
Proof.
  unfold eta_to_folder. cbn [dict_get].
  destruct (Qeq_bool 0 e) eqn:E0; [|destruct (Qeq_bool (1 # 5) e) eqn:E1;
    [|destruct (Qeq_bool (1 # 2) e) eqn:E2; [|destruct (Qeq_bool 1 e) eqn:E3; [|discriminate]]]];
  (destruct (Qeq_bool 0 e') eqn:F0; [|destruct (Qeq_bool (1 # 5) e') eqn:F1;
    [|destruct (Qeq_bool (1 # 2) e') eqn:F2; [|destruct (Qeq_bool 1 e') eqn:F3; [|discriminate]]]]);
  intros H1 H2; rewrite <- H2 in H1; try discriminate;
  repeat match goal with
         | E : Qeq_bool _ _ = true |- _ => apply Qeq_bool_iff in E
         end;
  match goal with
  | A : (?k == e)%Q, B : (?k == e')%Q |- _ => now rewrite <- A, <- B
  end.
Qed.

(** X12. Two grid points whose eta values have a folder token are looked
    up in the same sample folder exactly when they are the same point
    (same steps, eta values equal as numbers): distinct points never share
    a folder, and different spellings of one eta value ([0] and [0.0])
    never split one. *)
Theorem X12_one_folder_per_grid_point (cfg : Config) (s s' : Z) (e e' : Q) :
  in_table e = true -> in_table e' = true ->
  (sample_path cfg s e = sample_path cfg s' e' <-> s = s' /\ (e == e')%Q).
Proof.
  unfold in_table, sample_path. intros He He'.
  destruct (dict_get eta_to_folder e) as [t|] eqn:Ht; [|discriminate].
  destruct (dict_get eta_to_folder e') as [t'|] eqn:Ht'; [|discriminate].
  split.
  - intros H. apply sample_path_of_inj in H as [-> ->].
    split; [reflexivity | eapply token_inj; eassumption].
  - intros [-> Heq]. rewrite (dict_get_compat _ _ Heq), Ht' in Ht. now inversion Ht.
Qed.

Lemma X12_witness :
  sample_path default_config 10 (1 # 5) <> sample_path default_config 100 (1 # 5) /\
  sample_path default_config 10 (1 # 5) = sample_path default_config 10 (2 # 10).
Proof.
  split.
  - intros H.
    apply (X12_one_folder_per_grid_point default_config 10 100 (1 # 5) (1 # 5) eq_refl eq_refl)
      in H as [H _]. discriminate.
  - apply (X12_one_folder_per_grid_point default_config 10 10 (1 # 5) (2 # 10) eq_refl eq_refl).
    split; reflexivity.
Defined.

(** ** The closing summary on the console *)

Lemma sweep_not_report ev : is_sweep_event ev = true -> is_report_event ev = false.
Proof. now destruct ev as [[]| | | | |]. Qed.

(** A report event on a run's trace comes from [report] applied to the
    rows of the whole grid, and then the whole of [report]'s trace is on
    the run's trace. *)
Lemma main_report_part cfg w ev :
  In ev (fst (main cfg w)) -> is_report_event ev = true ->
  In ev (fst (report cfg (sweep_rows cfg w))) /\
  (forall ev', In ev' (fst (report cfg (sweep_rows cfg w))) -> In ev' (fst (main cfg w))).
Proof.
  intros Hin Hrep.
  destruct (goes_on_b cfg w) eqn:Hgo.
  - apply goes_on_b_spec in Hgo. rewrite (main_trace _ _ Hgo) in *. cbn [fst] in *.
    apply in_app_or in Hin as [Hin | Hin].
    { apply preamble_events in Hin as (_ & H & _). congruence. }
    apply in_app_or in Hin as [Hin | Hin].
    { apply sweep_events, sweep_not_report in Hin. congruence. }
    destruct (sweep cfg w) as [t1 [rs|e]] eqn:Esw; cbn [snd] in *; [|destruct Hin].
    assert (Hrs := sweep_done_rows _ _ _ _ Esw). subst rs.
    destruct Hin as [<- | Hin]; [discriminate|].
    split; [exact Hin|]. intros ev' H'.
    apply in_or_app. right. apply in_or_app. right. now right.
  - exfalso. rewrite (main_stops _ _ Hgo) in Hin. cbn [fst] in Hin.
    destruct (path_exists w (samples_base_path cfg)).
    + apply preamble_events in Hin as (_ & H & _). congruence.
    + destruct Hin as [<- | [<- | []]]; discriminate.
Qed.

Lemma report_console cfg df ev :
  In ev (fst (report cfg df)) ->
  match ev with
  | Print (LBest s e f) =>
      exists p, pivot df = Done p /\
                In (TBest s e f) (fst (text_report cfg df (sort_index p)))
  | Print (LWorst s e f) =>
      exists p, pivot df = Done p /\
                In (TWorst s e f) (fst (text_report cfg df (sort_index p)))
  | Print (LOverall m sd) =>
      m = mean_fid (summary_of df) /\ sd = std_fid (summary_of df)
  | _ => True
  end.
Proof.
  unfold report, lift. destruct (pivot df) as [p|e0] eqn:Hp; [|cbn; intros []]. cbn.
  destruct (text_report cfg df (sort_index p)) as [items [e|]] eqn:Et.
  - cbn. intros Hin.
    repeat (destruct Hin as [<- | Hin]; [exact I|]). destruct Hin.
  - destruct (text_report_done_inv _ _ _ _ Et) as (best & worst & Hb & Hw & Hitems).
    rewrite Hb, Hw. cbn. intros Hin.
    repeat (destruct Hin as [<- | Hin]; [try exact I|]); try destruct Hin.
    + exists p. split; [reflexivity|]. rewrite Et, Hitems. cbn. auto 10.
    + exists p. split; [reflexivity|]. rewrite Et, Hitems. cbn. auto 10.
    + split; reflexivity.
Qed.

(** X15. The closing summary on the console repeats what the files hold:
    the best and the worst configuration printed there are the ones
    written to the text file, and the overall mean and standard deviation
    printed there are the Mean and Std values of the workbook's Summary
    sheet.  Nothing of it is printed unless the three files were
    written. *)
Theorem X15_console_summary_repeats_the_files (cfg : Config) (w : World) :
  (forall s e f, In (Print (LBest s e f)) (fst (main cfg w)) ->
     exists items, In (TxtWritten output_txt items) (fst (main cfg w)) /\
                   In (TBest s e f) items) /\
  (forall s e f, In (Print (LWorst s e f)) (fst (main cfg w)) ->
     exists items, In (TxtWritten output_txt items) (fst (main cfg w)) /\
                   In (TWorst s e f) items) /\
  (forall m sd, In (Print (LOverall m sd)) (fst (main cfg w)) ->
     exists wb, In (ExcelSaved output_excel wb) (fst (main cfg w)) /\
                m = mean_fid (Summary_sheet wb) /\ sd = std_fid (Summary_sheet wb)).
Proof.
  assert (Hart : forall p, pivot (sweep_rows cfg w) = Done p ->
            In (ExcelSaved output_excel (build_workbook (sweep_rows cfg w) (sort_index p)))
               (fst (report cfg (sweep_rows cfg w))) /\
            In (TxtWritten output_txt (fst (text_report cfg (sweep_rows cfg w) (sort_index p))))
               (fst (report cfg (sweep_rows cfg w)))).
  { intros p Hp.
    assert (H := report_artifact_list cfg (sweep_rows cfg w)). rewrite Hp in H.
    split.
    - eapply (proj1 (filter_In is_artifact _ _)). rewrite H. now left.
    - eapply (proj1 (filter_In is_artifact _ _)). rewrite H. right. right. now left. }
  split; [|split].
  - intros s e f Hin. apply main_report_part in Hin as [Hin Hsub]; [|reflexivity].
    apply report_console in Hin as (p & Hp & Hit).
    eexists. split; [apply Hsub, (Hart p Hp) | exact Hit].
  - intros s e f Hin. apply main_report_part in Hin as [Hin Hsub]; [|reflexivity].
    apply report_console in Hin as (p & Hp & Hit).
    eexists. split; [apply Hsub, (Hart p Hp) | exact Hit].
  - intros m sd Hin. apply main_report_part in Hin as [Hin Hsub]; [|reflexivity].
    assert (Hp : exists p, pivot (sweep_rows cfg w) = Done p).
    { destruct (pivot (sweep_rows cfg w)) as [p|e] eqn:Hp; [eauto|].
      rewrite (report_pivot_raises _ _ _ Hp) in Hin. destruct Hin. }
    destruct Hp as [p Hp]. apply report_console in Hin as [-> ->].
    eexists. split; [apply Hsub, (Hart p Hp) | split; reflexivity].
Qed.

Lemma X15_scenario_witness :
  exists items,
    In (TxtWritten output_txt items) (fst (main scenario_config scenario_world)) /\
    In (TBest 10 0 (Some 3%Q)) items.
Proof.
  apply (proj1 (X15_console_summary_repeats_the_files scenario_config scenario_world)).
  vm_compute. repeat (first [left; reflexivity | right]).
Defined.

(** ** From the folders to the table *)

Lemma pivot_cell_of_row df p r :
  pivot df = Done p -> In r df ->
  pivot_cell (sort_index p) (steps r) (eta r) = Some (fid r).
Proof.
  intros H Hr. apply pivot_done_inv in H as (_ & Hdup & ->).
  unfold sort_index, pivot_cell. cbn [columns rows].
  rewrite sort_index_fix by (rewrite row_labels; apply steps_labels_Sorted).
  rewrite find_row by (apply steps_labels_In, in_map, Hr).
  destruct (index_of_spec (eta r) (sort_uniq Qcompare (map eta df))) as (i & e' & Hi & Hn & He).
  { apply eta_labels_InA, In_InA_Qeq, in_map, Hr. }
  rewrite Hi, nth_error_map, Hn. cbn.
  now rewrite (cell_at_compat _ _ _ _ He), (cell_at_own _ _ Hdup Hr).
Qed.

(** X16. In the table written to the files, the cell in row [steps] and
    column [eta] of a grid point holds the score the engine returned for
    that point's folder, and NaN when the folder was absent or the engine
    raised. *)
Theorem X16_table_cells_follow_the_folders
    (cfg : Config) (w : World) (p : PivotTable) (s : Z) (e : Q) :
  pivot (sweep_rows cfg w) = Done p ->
  In s (steps_list cfg) -> In e (eta_list cfg) ->
  pivot_cell (sort_index p) s e =
  Some (match point_status cfg w s e with
        | Some (ok v) => Some v
        | _ => None
        end).
Proof.
  intros Hp Hs He.
  assert (Hr : In (point_row cfg w s e) (sweep_rows cfg w)).
  { unfold sweep_rows. apply in_flat_map. exists s. split; [exact Hs | now apply in_map]. }
  exact (pivot_cell_of_row _ _ _ Hp Hr).
Qed.

Lemma X16_scenario_witness :
  pivot_cell scenario_table 20 0 = Some (Some 4%Q) /\
  pivot_cell scenario_table 20 1 = Some None.
Proof.
  assert (Hp : exists p, pivot (sweep_rows scenario_config scenario_world) = Done p /\
                         sort_index p = scenario_table)
    by (eexists; split; reflexivity).
  destruct Hp as (p & Hp & <-).
  split.
  - rewrite (X16_table_cells_follow_the_folders scenario_config scenario_world p 20 0 Hp);
      [reflexivity | right; now left | now left].
  - rewrite (X16_table_cells_follow_the_folders scenario_config scenario_world p 20 1 Hp);
      [reflexivity | right; now left | right; now left].
Defined.

(** * The three reports side by side *)

Lemma main_artifact_list cfg w :
  goes_on cfg w ->
  filter is_artifact (fst (main cfg w)) =
  match snd (sweep cfg w) with
  | Done rs => filter is_artifact (fst (report cfg rs))
  | Raise _ => []
  end.
Proof.
  intros Hgo. rewrite (main_trace _ _ Hgo). cbn [fst]. rewrite !filter_app.
  rewrite (filter_none is_artifact (preamble cfg w))
    by (intros x Hx; eapply existsb_false_In; [apply preamble_quiet | exact Hx]).
  rewrite (filter_none is_artifact (fst (sweep cfg w)))
    by (intros x Hx; apply sweep_events in Hx; now apply sweep_event_kinds in Hx).
  cbn [Datatypes.app]. now destruct (snd (sweep cfg w)).
Qed.

Lemma loc_In df label r : loc df label = Done r -> In r df.
Proof.
  unfold loc. destruct label as [i|]; [|discriminate].
  destruct (nth_error df i) as [r'|] eqn:E; [|discriminate].
  intros H. inversion H. subst. eapply nth_error_In. exact E.
Qed.

(** A [report] that returns has found a table, a best and a worst row, and
    has written every part of the text report. *)
Lemma report_done_inv cfg df :
  snd (report cfg df) = Done tt ->
  exists p best worst,
    pivot df = Done p /\
    loc df (idxmin (map fid df)) = Done best /\
    loc df (idxmax (map fid df)) = Done worst /\
    text_report cfg df (sort_index p) =
      ([TTableTitle; TPivot (sort_index p); TSummaryTitle]
       ++ [TBest (steps best) (eta best) (fid best);
           TWorst (steps worst) (eta worst) (fid worst)]
       ++ TAvgEtaTitle :: map (fun e => TAvgEta e (mask_eta_mean df e)) (eta_list cfg)
       ++ TAvgStepsTitle :: map (fun s => TAvgSteps s (mask_steps_mean df s)) (steps_list cfg),
       None).
Proof.
  unfold report, lift. destruct (pivot df) as [p|e] eqn:Hp; [|discriminate]. cbn.
  destruct (text_report cfg df (sort_index p)) as [items [e|]] eqn:Et; [discriminate|].
  destruct (text_report_done_inv _ _ _ _ Et) as (best & worst & Hb & Hw & ->).
  intros _. exists p, best, worst. auto.
Qed.

Lemma In_sort_uniq_eta_list cfg w k :
  In k (sort_uniq Qcompare (map eta (sweep_rows cfg w))) ->
  exists e, In e (eta_list cfg) /\ (k == e)%Q.
Proof.
  intros H. apply In_InA_Qeq in H. apply (proj1 (eta_labels_InA _ _)) in H.
  apply InA_alt in H as (e & Heq & He).
  exists e. split; [|exact Heq].
  unfold sweep_rows in He. rewrite eta_of_sweep_rows in He.
  apply in_flat_map in He as (_ & _ & He). exact He.
Qed.

Lemma In_steps_of_sweep_rows cfg w s :
  In s (map steps (sweep_rows cfg w)) -> In s (steps_list cfg).
Proof.
  unfold sweep_rows. rewrite steps_of_sweep_rows. intros H.
  apply in_flat_map in H as (s' & Hs' & H). apply in_map_iff in H as (_ & <- & _). exact Hs'.
Qed.

(** ** C9 *)

(** C9, as the claim states it, fails: the average the workbook holds and
    the average the text report holds are computed separately, by
    [groupby(..).mean()] and by [Series.mean()], and on the same five
    scores these return different doubles: 216.14000000000001 for the
    workbook, 216.13999999999996 for the text report. *)
Lemma C9_workbook_and_text_averages_are_different_doubles :
  group_mean64 five_scores64 = Some 0x1.b047ae147ae15p+7%float /\
  series_mean64 five_scores64 = Some 0x1.b047ae147ae13p+7%float /\
  PrimFloat.eqb 0x1.b047ae147ae15p+7 0x1.b047ae147ae13p+7 = false.
Proof. repeat split; vm_compute; reflexivity. Qed.

(** C9, amended. In every run that gets past its path checks and returns
    normally, the three files are written from the one frame of the
    sweep's rows.  The FID_Table sheet, the CSV file and the text file hold
    the same table; the text file names a best and a worst row of the frame
    with the Best and Worst values of the Summary sheet; and the text file
    has one average line per element of the eta list and of the steps
    list, the workbook one per distinct value, for the same values, each
    taken over the [fid] cells of the same rows.  The averages are computed
    once for each file, by [Series.mean()] for the text file and by
    [groupby(..).mean()] for the workbook: computed exactly the two agree,
    as doubles they need not. *)
Theorem C9_reports_are_written_from_one_frame (cfg : Config) (w : World) :
  goes_on cfg w ->
  snd (main cfg w) = Done tt ->
  exists p best worst,
    pivot (sweep_rows cfg w) = Done p /\
    In best (sweep_rows cfg w) /\ In worst (sweep_rows cfg w) /\
    filter is_artifact (fst (main cfg w)) =
      [ExcelSaved output_excel (build_workbook (sweep_rows cfg w) (sort_index p));
       CsvSaved output_csv (sort_index p);
       TxtWritten output_txt
         ([TTableTitle; TPivot (sort_index p); TSummaryTitle;
           TBest (steps best) (eta best)
                 (best_fid (Summary_sheet (build_workbook (sweep_rows cfg w) (sort_index p))));
           TWorst (steps worst) (eta worst)
                  (worst_fid (Summary_sheet (build_workbook (sweep_rows cfg w) (sort_index p))))]
          ++ TAvgEtaTitle ::
             map (fun e => TAvgEta e
                    (series_mean (map fid (filter (eta_is e) (sweep_rows cfg w)))))
                 (eta_list cfg)
          ++ TAvgStepsTitle ::
             map (fun s => TAvgSteps s
                    (series_mean (map fid (filter (steps_is s) (sweep_rows cfg w)))))
                 (steps_list cfg))] /\
    FID_Table (build_workbook (sweep_rows cfg w) (sort_index p)) = sort_index p /\
    Raw_Data (build_workbook (sweep_rows cfg w) (sort_index p)) = sweep_rows cfg w /\
    Avg_by_Eta (build_workbook (sweep_rows cfg w) (sort_index p)) =
      map (fun k => (k, group_mean (map fid (filter (eta_is k) (sweep_rows cfg w)))))
          (sort_uniq Qcompare (map eta (sweep_rows cfg w))) /\
    Avg_by_Steps (build_workbook (sweep_rows cfg w) (sort_index p)) =
      map (fun k => (k, group_mean (map fid (filter (steps_is k) (sweep_rows cfg w)))))
          (sort_uniq Z.compare (map steps (sweep_rows cfg w))) /\
    (forall e, In e (eta_list cfg) ->
       exists k, In k (sort_uniq Qcompare (map eta (sweep_rows cfg w))) /\ (k == e)%Q /\
                 filter (eta_is k) (sweep_rows cfg w) = filter (eta_is e) (sweep_rows cfg w)) /\
    (forall k, In k (sort_uniq Qcompare (map eta (sweep_rows cfg w))) ->
       exists e, In e (eta_list cfg) /\ (k == e)%Q /\
                 filter (eta_is k) (sweep_rows cfg w) = filter (eta_is e) (sweep_rows cfg w)) /\
    (forall s, In s (steps_list cfg) <->
               In s (sort_uniq Z.compare (map steps (sweep_rows cfg w)))) /\
    (forall col, cell_eq (group_mean col) (mean_of (dropna col)) /\
                 cell_eq (series_mean col) (mean_of (dropna col))).
Proof.
  intros Hgo Hdone.
  assert (Hart := main_artifact_list cfg w Hgo).
  rewrite (main_trace _ _ Hgo) in Hdone. cbn [snd] in Hdone.
  destruct (sweep cfg w) as [t1 [rs|e]] eqn:Esw; cbn [snd] in Hdone, Hart; [|discriminate].
  assert (Hrs := sweep_done_rows _ _ _ _ Esw). subst rs.
  set (df := sweep_rows cfg w) in *.
  destruct (report_done_inv _ _ Hdone) as (p & best & worst & Hp & Hb & Hw & Ht).
  exists p, best, worst.
  destruct (pivot_done_inv _ _ Hp) as (Hne & _ & _).
  destruct (sweep_rows_nonempty _ _ Hne) as [Hss Hes].
  split; [exact Hp|]. split; [exact (loc_In _ _ _ Hb)|]. split; [exact (loc_In _ _ _ Hw)|].
  split.
  { rewrite Hart, report_artifact_list, Hp, Ht. cbn [fst Datatypes.app].
    cbn [build_workbook Summary_sheet summary_of best_fid worst_fid].
    rewrite <- (loc_idxmin_is_min _ _ Hb), <- (loc_idxmax_is_max _ _ Hw). reflexivity. }
  split; [reflexivity|]. split; [reflexivity|]. split; [reflexivity|]. split; [reflexivity|].
  split; [|split; [|split; [|split]]].
  - intros e He.
    assert (HA : InA Qeq e (sort_uniq Qcompare (map eta df))).
    { apply eta_labels_InA, In_InA_Qeq. now apply In_eta_sweep_rows. }
    apply InA_alt in HA as (k & Heq & Hk).
    exists k. split; [exact Hk|]. split; [now symmetry|].
    apply filter_eta_is_compat. now symmetry.
  - intros k Hk. destruct (In_sort_uniq_eta_list _ _ _ Hk) as (e & He & Heq).
    exists e. split; [exact He|]. split; [exact Heq|].
    apply filter_eta_is_compat. exact Heq.
  - intros s. rewrite steps_labels_In. split.
    + now apply In_steps_sweep_rows.
    + apply In_steps_of_sweep_rows.
  - apply group_mean_exact.
  - apply series_mean_spec.
Qed.

Lemma C9_scenario_witness :
  exists best worst,
    filter is_artifact (fst (main scenario_config scenario_world)) =
      [ExcelSaved output_excel scenario_workbook;
       CsvSaved output_csv scenario_table;
       TxtWritten output_txt
         ([TTableTitle; TPivot scenario_table; TSummaryTitle;
           TBest (steps best) (eta best) (Some 3%Q);
           TWorst (steps worst) (eta worst) (Some 4%Q)]
          ++ TAvgEtaTitle ::
             map (fun e => TAvgEta e
                    (series_mean (map fid (filter (eta_is e)
                       (sweep_rows scenario_config scenario_world)))))
                 [0; 1]%Q
          ++ TAvgStepsTitle ::
             map (fun s => TAvgSteps s
                    (series_mean (map fid (filter (steps_is s)
                       (sweep_rows scenario_config scenario_world)))))
                 [10; 20])].
Proof.
  destruct (C9_reports_are_written_from_one_frame scenario_config scenario_world)
    as (p & best & worst & Hp & _ & _ & Hart & _).
  - split; [reflexivity | left; reflexivity].
  - reflexivity.
  - exists best, worst.
    assert (Hpt : sort_index p = scenario_table).
    { assert (E : pivot (sweep_rows scenario_config scenario_world) =
                  Done {| columns := [0; 1]%Q;
                          rows := [(10, [Some 3%Q; None]); (20, [Some 4%Q; None])] |})
        by reflexivity.
      rewrite E in Hp. inversion Hp. reflexivity. }
    rewrite Hpt in Hart. exact Hart.
Defined.
